(** * SpaceX launch dashboard: the data transformations behind the two charts

    A shallow embedding of [c10m3nb2_plotly_dash.py].  The module loads one
    table ([spacex_data]) and registers two callbacks:

    - [update_success_chart]      (the spec's [summarize]),
    - [update_correlation_chart]  (the spec's [correlate]).

    Each callback builds a pandas frame and hands it to a plotting call.  The
    embedding stops at that hand-over: a callback returns the frame it passes
    to [px.pie] / [px.scatter].

    Frames are Python objects, and one of the callbacks assigns a column in
    place, so frames live in a store and the callbacks run in a small
    state-and-error monad over it.

    What is taken from pandas, and how:
    - [read_csv] and [reset_index] number the rows 0, 1, 2, ...;
    - a comparison of a column with a scalar gives a mask, [&] combines
      masks entry by entry, and [df[mask]] copies the selected rows into a
      new frame, labels kept;
    - [groupby] has its default [sort=True]: one group per distinct key, in
      ascending key order;
    - [merge] is the default inner join and follows the left table;
    - [value_counts] lists the distinct values by falling count, and values
      of equal count in order of first appearance;
    - [Series.map] with a dict gives NaN where the dict has no key;
    - payload masses are rationals: comparisons are all the code does with
      them. *)

From Stdlib Require Import ZArith QArith List Sorted OrdersEx.
From stdpp Require Import base list strings sorting.

Local Open Scope string_scope.
Local Open Scope Z_scope.
Local Open Scope nat_scope.
Local Open Scope list_scope.

(** ** Data model *)

(** One line of [datasets/spacex_launch_dash.csv], fields named after the
    columns the program reads: ['Launch Site'], ['Payload Mass (kg)'],
    ['Booster Version Category'], ['Booster Version'], ['class']. *)
Record LaunchRecord := mkLaunch {
  Launch_Site : string;
  Payload_Mass : Q;
  Booster_Version_Category : string;
  Booster_Version : string;
  class : Z
}.

(** A frame is a sequence of rows, each under its index label.  A column
    taken out of a frame ([df[col]]) is kept as the list of its values, in
    row order. *)
Abbreviation DataFrame R := (list (nat * R)).

Definition labels {R} (df : DataFrame R) : list nat := map fst df.
Definition records {R} (df : DataFrame R) : list R := map snd df.

(** [df[col]] *)
Definition getitem {R A} (col : R -> A) (df : DataFrame R) : list A :=
  map col (records df).

(** [.reset_index()] and the index [read_csv] builds: labels 0, 1, 2, ... *)
Definition reset_index {R} (rows : list R) : DataFrame R :=
  zip (seq 0 (length rows)) rows.

(** ** pandas primitives used by the callbacks *)

(** [series >= x] and [series <= x] on a numeric column. *)
Definition ge_scalar (s : list Q) (x : Q) : list bool :=
  map (fun v => Qle_bool x v) s.
Definition le_scalar (s : list Q) (x : Q) : list bool :=
  map (fun v => Qle_bool v x) s.

(** [series == x] on a string column. *)
Definition eq_scalar (s : list string) (x : string) : list bool :=
  map (fun v => String.eqb v x) s.

(** [mask1 & mask2] *)
Definition mask_and (m1 m2 : list bool) : list bool := zip_with andb m1 m2.

(** [df[mask]]: the rows (or values) whose mask entry is [True], in place
    order, each keeping its label. *)
Fixpoint bool_index {A} (l : list A) (mask : list bool) : list A :=
  match l, mask with
  | x :: l', m :: mask' =>
      if m then x :: bool_index l' mask' else bool_index l' mask'
  | _, _ => []
  end.

(** [series.map(d)] for a dict [d]: a value that is no key of [d] becomes
    NaN, here [None]. *)
Fixpoint dict_get {V} (d : list (Z * V)) (k : Z) : option V :=
  match d with
  | [] => None
  | (k', v) :: d' => if Z.eqb k' k then Some v else dict_get d' k
  end.

Definition series_map {V} (d : list (Z * V)) (s : list Z) : list (option V) :=
  map (dict_get d) s.

(** The dict literal [{1: "Success", 0: "Failure"}]. *)
Definition outcome_dict : list (Z * string) := [(1%Z, "Success"); (0%Z, "Failure")].

(** [df[c] = series] on a frame of two columns, for its first column [c]. *)
Definition setitem_fst {A B C} (df : DataFrame (A * B)) (s : list C) : DataFrame (C * B) :=
  zip (labels df) (zip s (getitem snd df)).

(** [.unique()]: distinct values in order of first appearance. *)
Fixpoint unique_from {A} `{EqDecision A} (seen l : list A) : list A :=
  match l with
  | [] => []
  | x :: l' =>
      if decide (x ∈ seen) then unique_from seen l'
      else x :: unique_from (x :: seen) l'
  end.

Definition unique {A} `{EqDecision A} (l : list A) : list A := unique_from [] l.

(** A stable sort: an element is placed before the first one it is [leb]
    to, so elements that compare equal keep their order. *)
Section StableSort.
Context {A : Type} (leb : A -> A -> bool).

Fixpoint insert_sorted (x : A) (l : list A) : list A :=
  match l with
  | [] => [x]
  | y :: l' => if leb x y then x :: l else y :: insert_sorted x l'
  end.

Definition stable_sort (l : list A) : list A := foldr insert_sorted [] l.
End StableSort.

(** Order on strings: lexicographic on character codes, as Python's. *)
Definition str_lt (a b : string) : Prop := String_as_OT.compare a b = Lt.
Definition str_leb (a b : string) : bool :=
  match String_as_OT.compare a b with Gt => false | _ => true end.

(** [df.groupby(key)]: with the default [sort=True] the groups come in
    ascending key order; each group holds its rows in frame order. *)
Definition groupby_keys (keys : list string) : list string :=
  stable_sort str_leb (unique keys).

Definition groupby {R} (key : R -> string) (df : DataFrame R)
  : list (string * list R) :=
  map (fun k => (k, filter (fun r => key r = k) (records df)))
      (groupby_keys (getitem key df)).

Definition sum_Z (l : list Z) : Z := foldr Z.add 0%Z l.

(** [groups[col].sum()] and [groups.size()] *)
Definition agg_sum {R} (col : R -> Z) (g : list (string * list R))
  : list (string * Z) :=
  map (fun kr => (fst kr, sum_Z (map col (snd kr)))) g.

Definition agg_size {R} (g : list (string * list R)) : list (string * nat) :=
  map (fun kr => (fst kr, length (snd kr))) g.

(** [pd.merge(left, right, on=key)]: inner join, the rows ordered as the
    left keys are; the result gets a fresh index. *)
Definition merge {A B} (left : DataFrame (string * A)) (right : DataFrame (string * B))
  : DataFrame (string * A * B) :=
  reset_index
    (flat_map
       (fun ka => map (fun kb => (fst ka, snd ka, snd kb))
                      (filter (fun kb => fst kb = fst ka) (records right)))
       (records left)).

(** [series.value_counts()]: one entry per distinct value with the number of
    its occurrences, most frequent first; among equal counts the value seen
    first comes first. *)
Definition count_of (v : Z) (s : list Z) : nat := length (filter (fun x => x = v) s).

Definition value_counts (s : list Z) : list (Z * nat) :=
  stable_sort (fun x y => Nat.leb (snd y) (snd x))
              (map (fun v => (v, count_of v s)) (unique s)).

(** ** The store and the monad of the callbacks *)

(** A frame object with the columns of the CSV file, and the column
    ['Outcome'] once it has been assigned. *)
Record Frame := mkFrame {
  body : DataFrame LaunchRecord;
  Outcome : option (list (option string))
}.

Abbreviation loc := nat.
Abbreviation Heap := (list Frame).

(** [None] is a raised exception. *)
Definition M (A : Type) : Type := Heap -> option (A * Heap).

Definition ret {A} (a : A) : M A := fun h => Some (a, h).
Definition raise {A} : M A := fun _ => None.
Definition bind {A B} (m : M A) (k : A -> M B) : M B :=
  fun h => match m h with
           | Some (a, h') => k a h'
           | None => None
           end.

Notation "'let*' x ':=' m 'in' k" := (bind m (fun x => k))
  (at level 10, x name, m at level 100, k at level 200).

Definition load (l : loc) : M Frame :=
  fun h => match h !! l with
           | Some fr => Some (fr, h)
           | None => None
           end.

Definition alloc (fr : Frame) : M loc :=
  fun h => Some (length h, h ++ [fr]).

Definition store (l : loc) (fr : Frame) : M unit :=
  fun h => match h !! l with
           | Some _ => Some (tt, <[l := fr]> h)
           | None => None
           end.

(** [frame[col]] through a reference. *)
Definition column {A} (col : LaunchRecord -> A) (l : loc) : M (list A) :=
  let* fr := load l in ret (getitem col (body fr)).

(** [frame[mask]] through a reference: boolean indexing builds a new frame
    object, a copy of the selected rows; a mask of another length than the
    frame is refused. *)
Definition getitem_mask (l : loc) (mask : list bool) : M loc :=
  let* fr := load l in
  if Nat.eqb (length mask) (length (body fr)) then
    alloc {| body := bool_index (body fr) mask;
             Outcome := option_map (fun o => bool_index o mask) (Outcome fr) |}
  else raise.

(** [frame['Outcome'] = series]: assigns the column of the object in place. *)
Definition setitem_Outcome (l : loc) (s : list (option string)) : M unit :=
  let* fr := load l in
  store l {| body := body fr; Outcome := Some s |}.

(** The rows [px.scatter] draws: it reads the column ['Outcome'] next to the
    CSV columns, and raises when the frame has no such column. *)
Abbreviation CorrelationResult := (DataFrame (LaunchRecord * option string)).

Definition px_scatter (l : loc) : M CorrelationResult :=
  let* fr := load l in
  match Outcome fr with
  | Some o => ret (zip (labels (body fr)) (zip (records (body fr)) o))
  | None => raise
  end.

(** What [px.pie] is given: the per-site table ([result_df]) or the
    per-outcome table ([outcomes]). *)
Inductive SiteSummaryResult :=
| ByCategory (result_df : DataFrame (string * Z * nat))
| ByOutcome (outcomes : DataFrame (option string * nat)).

(** The three columns of [result_df]: ['Launch Site'], ['class'], ['total']. *)
Definition site_of (t : string * Z * nat) : string := fst (fst t).
Definition success_total (t : string * Z * nat) : Z := snd (fst t).
Definition record_total (t : string * Z * nat) : nat := snd t.

(** ** The module and its two callbacks *)

(** [spacex_data = pd.read_csv(...)] is the first object the module builds. *)
Definition spacex_data : loc := 0.

Definition read_csv (D : list LaunchRecord) : Frame :=
  {| body := reset_index D; Outcome := None |}.

Definition module_heap (D : list LaunchRecord) : Heap := [read_csv D].

(** [launch_sites = spacex_data['Launch Site'].unique().tolist()] *)
Definition launch_sites (D : list LaunchRecord) : list string :=
  unique (map Launch_Site D).

(** The callback of the pie chart.  The tables it derives ([success_counts],
    [total_counts], [result_df], [outcomes]) are new objects that only this
    call holds; they are kept as values.  Renaming the two columns of
    [outcomes] leaves its rows as they are. *)
Definition update_success_chart (selected_site : string) : M SiteSummaryResult :=
  if String.eqb selected_site "ALL" then
    let* df := load spacex_data in
    (* spacex_data.groupby('Launch Site')['class'].sum().reset_index() *)
    let success_counts := reset_index (agg_sum class (groupby Launch_Site (body df))) in
    (* spacex_data.groupby('Launch Site').size().reset_index(name='total') *)
    let total_counts := reset_index (agg_size (groupby Launch_Site (body df))) in
    (* pd.merge(success_counts, total_counts, on='Launch Site') *)
    let result_df := merge success_counts total_counts in
    ret (ByCategory result_df)
  else
    (* spacex_data[spacex_data['Launch Site'] == selected_site] *)
    let* sites := column Launch_Site spacex_data in
    let* site_data := getitem_mask spacex_data (eq_scalar sites selected_site) in
    (* site_data['class'].value_counts().reset_index() *)
    let* cls := column class site_data in
    let outcomes := reset_index (value_counts cls) in
    (* outcomes['Outcome'] = outcomes['Outcome'].map({1: "Success", 0: "Failure"}) *)
    let outcomes := setitem_fst outcomes (series_map outcome_dict (getitem fst outcomes)) in
    ret (ByOutcome outcomes).

(** The callback of the scatter chart.  [filtered_data] is a variable: it
    names the frame of the range filter and then, for a site, the frame of
    the site filter; the column assignment goes to the object it names. *)
Definition update_correlation_chart (selected_site : string) (payload_range : Q * Q)
  : M CorrelationResult :=
  (* spacex_data[(mass >= payload_range[0]) & (mass <= payload_range[1])] *)
  let* mass := column Payload_Mass spacex_data in
  let* filtered_data :=
    getitem_mask spacex_data
      (mask_and (ge_scalar mass (fst payload_range))
                (le_scalar mass (snd payload_range))) in
  (* if selected_site != 'ALL': filtered_data[filtered_data['Launch Site'] == selected_site] *)
  let* filtered_data :=
    (if negb (String.eqb selected_site "ALL") then
       let* sites := column Launch_Site filtered_data in
       getitem_mask filtered_data (eq_scalar sites selected_site)
     else ret filtered_data) in
  (* filtered_data['Outcome'] = filtered_data['class'].map({1: "Success", 0: "Failure"}) *)
  let* cls := column class filtered_data in
  let* _ := setitem_Outcome filtered_data (series_map outcome_dict cls) in
  px_scatter filtered_data.

(** ** The spec's names

    [summarize] and [correlate] are the callbacks run in the store the module
    leaves after loading the dataset [D]. *)
Definition summarize (D : list LaunchRecord) (selected_site : string)
  : option SiteSummaryResult :=
  option_map fst (update_success_chart selected_site (module_heap D)).

Definition correlate (D : list LaunchRecord) (selected_site : string) (a b : Q)
  : option CorrelationResult :=
  option_map fst (update_correlation_chart selected_site (a, b) (module_heap D)).

(** ** Notions used in the statements *)

(** The data model's constraint on the column ['class']: every flag is 0 or 1. *)
Definition flags_valid (D : list LaunchRecord) : Prop :=
  Forall (fun r => class r = 0%Z \/ class r = 1%Z) D.

(** The rows of one site, and the line of [result_df] they give. *)
Definition site_rows (D : list LaunchRecord) (k : string) : list LaunchRecord :=
  filter (fun r => Launch_Site r = k) D.

Definition site_entry (D : list LaunchRecord) (k : string) : string * Z * nat :=
  (k, sum_Z (map class (site_rows D k)), length (site_rows D k)).

(** The two row tests of [update_correlation_chart], and the label it
    attaches. *)
Definition in_range (a b : Q) (r : LaunchRecord) : bool :=
  Qle_bool a (Payload_Mass r) && Qle_bool (Payload_Mass r) b.

Definition at_site (s : string) (r : LaunchRecord) : bool :=
  String.eqb (Launch_Site r) s.

Definition outcome_label (r : LaunchRecord) : option string :=
  dict_get outcome_dict (class r).

Definition with_outcome (ir : nat * LaunchRecord) : nat * (LaunchRecord * option string) :=
  (fst ir, (snd ir, outcome_label (snd ir))).

(** The example dataset of the spec. *)
Definition example_D : list LaunchRecord :=
  [ mkLaunch "A" (2000 # 1) "v1" "" 1;
    mkLaunch "A" (9000 # 1) "v2" "" 0;
    mkLaunch "B" (500 # 1) "v1" "" 1 ].

(** A dataset with a single launch, from a site that is named ["ALL"]. *)
Definition site_named_ALL : list LaunchRecord :=
  [ mkLaunch "ALL" (2000 # 1) "v1" "" 1 ].

(** ** The rest of the module: slider bounds and dropdown *)

(** [series.min()] and [series.max()]: the least and the greatest value of a
    column; NaN, here [None], for a column without values. *)
Definition series_min (s : list Q) : option Q :=
  match s with
  | [] => None
  | x :: s' => Some (foldl (fun m v => if Qle_bool m v then m else v) x s')
  end.

Definition series_max (s : list Q) : option Q :=
  match s with
  | [] => None
  | x :: s' => Some (foldl (fun m v => if Qle_bool v m then m else v) x s')
  end.

(** [payload_min = spacex_data['Payload Mass (kg)'].min()], and [.max()]. *)
Definition payload_min (D : list LaunchRecord) : option Q :=
  series_min (map Payload_Mass D).

Definition payload_max (D : list LaunchRecord) : option Q :=
  series_max (map Payload_Mass D).

(** The [value] the range slider starts with: [[payload_min, payload_max]]. *)
Definition slider_value (D : list LaunchRecord) : option (Q * Q) :=
  match payload_min D, payload_max D with
  | Some lo, Some hi => Some (lo, hi)
  | _, _ => None
  end.

(** An entry of the dropdown: [{'label': ..., 'value': ...}]. *)
Record DropdownOption := mkOption {
  label : string;
  value : string
}.

(** [options = [{'label': 'All Launch Sites', 'value': 'ALL'}] +
               [{'label': site, 'value': site} for site in launch_sites]] *)
Definition dropdown_options (D : list LaunchRecord) : list DropdownOption :=
  mkOption "All Launch Sites" "ALL"
  :: map (fun site => mkOption site site) (launch_sites D).

(** The [value] the dropdown starts with. *)
Definition dropdown_value : string := "ALL".

(** The rows of the table a call of [update_success_chart] gives [px.pie]. *)
Definition table_length (res : SiteSummaryResult) : nat :=
  match res with
  | ByCategory result_df => length result_df
  | ByOutcome outcomes => length outcomes
  end.

(** * Properties of the primitives *)

Section ListFacts.
Context {A : Type}.

Lemma bool_index_map (p : A -> bool) (l : list A) :
  bool_index l (map p l) = filter (fun x => p x = true) l.
Proof.
  induction l as [|x l IH]; simpl; [reflexivity|].
  rewrite filter_cons, IH.
  destruct (p x); destruct (decide _); congruence.
Qed.

Lemma zip_with_map {B C D} (f : B -> C -> D) (g : A -> B) (k : A -> C) (l : list A) :
  zip_with f (map g l) (map k l) = map (fun x => f (g x) (k x)) l.
Proof. induction l; simpl; congruence. Qed.

Lemma records_reset_index (l : list A) : records (reset_index l) = l.
Proof.
  unfold records, reset_index.
  generalize 0. induction l as [|x l IH]; intros n; simpl; [reflexivity|].
  rewrite IH. reflexivity.
Qed.

Lemma labels_reset_index (l : list A) : labels (reset_index l) = seq 0 (length l).
Proof.
  unfold labels, reset_index.
  generalize 0. induction l as [|x l IH]; intros n; simpl; [reflexivity|].
  rewrite IH. reflexivity.
Qed.

Lemma reset_index_lookup (l : list A) (i : nat) (x : A) :
  (i, x) ∈ reset_index l -> l !! i = Some x.
Proof.
  unfold reset_index.
  assert (H : forall n, (i, x) ∈ zip (seq n (length l)) l ->
                        exists j, i = n + j /\ l !! j = Some x).
  { induction l as [|y l IH]; intros n; simpl.
    - intros Hin. inversion Hin.
    - intros Hin. apply elem_of_cons in Hin as [Heq|Hin].
      + injection Heq as -> ->. exists 0. split; [lia|reflexivity].
      + destruct (IH (S n) Hin) as (j & -> & Hj).
        exists (S j). split; [lia|exact Hj]. }
  intros Hin. destruct (H 0 Hin) as (j & -> & Hj). exact Hj.
Qed.
End ListFacts.

(** [unique] lists exactly the values of its argument, each once. *)
Section Unique.
Context {A : Type} `{EqDecision A}.

Lemma elem_of_unique_from (seen l : list A) (x : A) :
  x ∈ unique_from seen l <-> x ∈ l /\ x ∉ seen.
Proof.
  revert seen. induction l as [|y l IH]; intros seen; simpl.
  - split; [intros H; inversion H | intros [H _]; inversion H].
  - destruct (decide (y ∈ seen)) as [Hy|Hy].
    + rewrite IH, elem_of_cons. split.
      * intros [H1 H2]. auto.
      * intros [[->|H1] H2]; [contradiction|auto].
    + rewrite !elem_of_cons, IH, elem_of_cons. split.
      * intros [->|[H1 H2]]; [auto|]. split; [auto|]. intros H3. apply H2. auto.
      * intros [[->|H1] H2]; [auto|].
        destruct (decide (x = y)) as [->|Hne]; [auto|].
        right. split; [exact H1|]. intros [?|?]; contradiction.
Qed.

Lemma NoDup_unique_from (seen l : list A) : NoDup (unique_from seen l).
Proof.
  revert seen. induction l as [|y l IH]; intros seen; simpl.
  - constructor.
  - destruct (decide (y ∈ seen)); [apply IH|].
    constructor; [|apply IH].
    rewrite elem_of_unique_from, elem_of_cons. intros [_ H]. apply H. auto.
Qed.

Lemma elem_of_unique (l : list A) (x : A) : x ∈ unique l <-> x ∈ l.
Proof.
  unfold unique. rewrite elem_of_unique_from. split; [tauto|].
  intros H. split; [exact H|]. intros H'. inversion H'.
Qed.

Lemma NoDup_unique (l : list A) : NoDup (unique l).
Proof. apply NoDup_unique_from. Qed.
End Unique.

(** [stable_sort] rearranges its argument, and the result is ordered when
    [leb] is total. *)
Section StableSortFacts.
Context {A : Type} (leb : A -> A -> bool).

Lemma insert_sorted_perm (x : A) (l : list A) : insert_sorted leb x l ≡ₚ x :: l.
Proof.
  induction l as [|y l IH]; simpl; [reflexivity|].
  destruct (leb x y); [reflexivity|].
  rewrite IH. apply Permutation_swap.
Qed.

Lemma stable_sort_perm (l : list A) : stable_sort leb l ≡ₚ l.
Proof.
  induction l as [|x l IH]; simpl; [reflexivity|].
  rewrite insert_sorted_perm, IH. reflexivity.
Qed.

Hypothesis leb_total : forall x y, leb x y = true \/ leb y x = true.

Lemma insert_sorted_Sorted (x : A) (l : list A) :
  Sorted (fun a b => leb a b = true) l ->
  Sorted (fun a b => leb a b = true) (insert_sorted leb x l).
Proof.
  induction 1 as [|y l Hs IH Hd]; simpl.
  - repeat constructor.
  - destruct (leb x y) eqn:Hxy.
    + constructor; [constructor; assumption|]. constructor. exact Hxy.
    + constructor; [exact IH|].
      destruct Hd as [|z l Hyz]; simpl.
      * constructor. destruct (leb_total x y); congruence.
      * destruct (leb x z); constructor; [|exact Hyz].
        destruct (leb_total x y); congruence.
Qed.

Lemma stable_sort_Sorted (l : list A) :
  Sorted (fun a b => leb a b = true) (stable_sort leb l).
Proof.
  induction l as [|x l IH]; simpl; [constructor|].
  apply insert_sorted_Sorted, IH.
Qed.
End StableSortFacts.

(** The order of the group keys. *)
Lemma str_leb_total (a b : string) : str_leb a b = true \/ str_leb b a = true.
Proof.
  unfold str_leb.
  destruct (String_as_OT.compare_spec a b) as [->|Hlt|Hgt]; [left; reflexivity| |].
  - left. reflexivity.
  - right. destruct (String_as_OT.compare_spec b a) as [?|?|Hlt']; try reflexivity.
    exfalso. apply (StrictOrder_Irreflexive (R := String_as_OT.lt) a).
    etransitivity; eassumption.
Qed.

Lemma str_leb_lt (a b : string) : str_leb a b = true -> a <> b -> str_lt a b.
Proof.
  unfold str_leb, str_lt.
  destruct (String_as_OT.compare_spec a b) as [->|Hlt|Hgt]; try congruence.
Qed.

#[local] Instance str_lt_trans : Transitive str_lt.
Proof.
  intros a b c. unfold str_lt.
  apply (StrictOrder_Transitive (R := String_as_OT.lt)).
Qed.

Lemma groupby_keys_perm (keys : list string) : groupby_keys keys ≡ₚ unique keys.
Proof. apply stable_sort_perm. Qed.

Lemma NoDup_groupby_keys (keys : list string) : NoDup (groupby_keys keys).
Proof. rewrite groupby_keys_perm. apply NoDup_unique. Qed.

Lemma elem_of_groupby_keys (keys : list string) (k : string) :
  k ∈ groupby_keys keys <-> k ∈ keys.
Proof. rewrite groupby_keys_perm. apply elem_of_unique. Qed.

(** The keys come out in strictly ascending order. *)
Lemma groupby_keys_sorted (keys : list string) :
  StronglySorted str_lt (groupby_keys keys).
Proof.
  apply Sorted_StronglySorted; [apply str_lt_trans|].
  pose proof (NoDup_groupby_keys keys) as Hnd.
  pose proof (stable_sort_Sorted str_leb str_leb_total (unique keys)) as Hs.
  fold (groupby_keys keys) in Hs.
  induction Hs as [|x l Hs IH Hd]; [constructor|].
  apply NoDup_cons in Hnd as [Hx Hnd].
  constructor; [apply IH, Hnd|].
  destruct Hd as [|y l Hxy]; constructor.
  apply str_leb_lt; [exact Hxy|].
  intros ->. apply Hx. left.
Qed.

(** ** Grouping *)

Lemma filter_key_absent {B} (g : string -> B) (ks : list string) (k : string) :
  k ∉ ks ->
  filter (fun kb : string * B => fst kb = k) (map (fun k' => (k', g k')) ks) = [].
Proof.
  induction ks as [|k0 ks IH]; intros Hk; simpl; [reflexivity|].
  rewrite not_elem_of_cons in Hk. destruct Hk as [Hne Hk].
  rewrite filter_cons_False by (simpl; congruence).
  apply IH, Hk.
Qed.

Lemma filter_key_present {B} (g : string -> B) (ks : list string) (k : string) :
  NoDup ks -> k ∈ ks ->
  filter (fun kb : string * B => fst kb = k) (map (fun k' => (k', g k')) ks) = [(k, g k)].
Proof.
  induction 1 as [|k0 ks Hk0 Hnd IH]; intros Hk; [inversion Hk|]. simpl.
  destruct (decide (k0 = k)) as [->|Hne].
  - rewrite filter_cons_True by reflexivity.
    rewrite filter_key_absent by exact Hk0. reflexivity.
  - rewrite filter_cons_False by (simpl; congruence).
    apply IH. apply elem_of_cons in Hk as [?|?]; [congruence|assumption].
Qed.

(** Joining two tables that list the same distinct keys pairs them up key
    by key. *)
Lemma merge_aligned {A B} (f : string -> A) (g : string -> B) (ks : list string) :
  NoDup ks ->
  merge (reset_index (map (fun k => (k, f k)) ks))
        (reset_index (map (fun k => (k, g k)) ks))
  = reset_index (map (fun k => (k, f k, g k)) ks).
Proof.
  intros Hnd. unfold merge. rewrite !records_reset_index. f_equal.
  assert (H : forall ks', (forall k, k ∈ ks' -> k ∈ ks) ->
    flat_map
      (fun ka : string * A =>
         map (fun kb : string * B => (fst ka, snd ka, snd kb))
             (filter (fun kb : string * B => fst kb = fst ka)
                     (map (fun k => (k, g k)) ks)))
      (map (fun k => (k, f k)) ks')
    = map (fun k => (k, f k, g k)) ks').
  { induction ks' as [|k ks' IH]; intros Hsub; simpl; [reflexivity|].
    rewrite (filter_key_present g ks k Hnd) by (apply Hsub; left).
    simpl. f_equal. apply IH. intros k' Hk'. apply Hsub. right. exact Hk'. }
  apply H. auto.
Qed.

Lemma sum_Z_zero {A} (l : list A) : sum_Z (map (fun _ => 0%Z) l) = 0%Z.
Proof. induction l; simpl; [reflexivity|]. rewrite IHl. reflexivity. Qed.

Lemma sum_Z_add {A} (f g : A -> Z) (l : list A) :
  sum_Z (map (fun x => (f x + g x)%Z) l) = (sum_Z (map f l) + sum_Z (map g l))%Z.
Proof. induction l; simpl; [reflexivity|]. rewrite IHl. lia. Qed.

Lemma sum_Z_pick (x : string) (c : Z) (ks : list string) :
  NoDup ks -> x ∈ ks ->
  sum_Z (map (fun k => if decide (x = k) then c else 0%Z) ks) = c.
Proof.
  induction 1 as [|k ks Hk Hnd IH]; intros Hx; [inversion Hx|]. simpl.
  destruct (decide (x = k)) as [->|Hne].
  - assert (H0 : sum_Z (map (fun k0 => if decide (k = k0) then c else 0%Z) ks) = 0%Z).
    { clear IH Hnd Hx. induction ks as [|k' ks IH]; simpl; [reflexivity|].
      rewrite not_elem_of_cons in Hk. destruct Hk as [Hne Hk].
      destruct (decide (k = k')); [contradiction|]. rewrite IH by exact Hk. reflexivity. }
    rewrite H0. lia.
  - rewrite IH; [lia|]. apply elem_of_cons in Hx as [?|?]; [contradiction|assumption].
Qed.

(** The per-site sums of a column add up to the sum of the whole column, as
    soon as the keys are distinct and cover the sites of the rows. *)
Lemma sum_Z_by_site (g : LaunchRecord -> Z) (ks : list string) (D : list LaunchRecord) :
  NoDup ks -> (forall r, r ∈ D -> Launch_Site r ∈ ks) ->
  sum_Z (map (fun k => sum_Z (map g (site_rows D k))) ks) = sum_Z (map g D).
Proof.
  intros Hnd. unfold site_rows.
  induction D as [|r D IH]; intros Hcov; simpl.
  - apply sum_Z_zero.
  - rewrite <- IH by (intros r' Hr'; apply Hcov; right; exact Hr').
    rewrite <- (sum_Z_pick (Launch_Site r) (g r) ks Hnd) at 1 by (apply Hcov; left).
    rewrite <- sum_Z_add. f_equal. apply map_ext. intros k.
    rewrite filter_cons. destruct (decide (Launch_Site r = k)); reflexivity.
Qed.

Lemma sum_list_zero {A} (l : list A) : sum_list (map (fun _ => 0) l) = 0.
Proof. induction l; simpl; [reflexivity|]. exact IHl. Qed.

Lemma sum_list_add {A} (f g : A -> nat) (l : list A) :
  sum_list (map (fun x => f x + g x) l) = sum_list (map f l) + sum_list (map g l).
Proof. induction l; simpl; [reflexivity|]. rewrite IHl. lia. Qed.

Lemma sum_list_pick (x : Z) (ks : list Z) :
  NoDup ks -> x ∈ ks ->
  sum_list (map (fun k => if decide (x = k) then 1 else 0) ks) = 1.
Proof.
  induction 1 as [|k ks Hk Hnd IH]; intros Hx; [inversion Hx|]. simpl.
  destruct (decide (x = k)) as [->|Hne].
  - assert (H0 : sum_list (map (fun k0 => if decide (k = k0) then 1 else 0) ks) = 0).
    { clear IH Hnd Hx. induction ks as [|k' ks IH]; simpl; [reflexivity|].
      rewrite not_elem_of_cons in Hk. destruct Hk as [Hne Hk].
      destruct (decide (k = k')); [contradiction|]. rewrite IH by exact Hk. reflexivity. }
    rewrite H0. lia.
  - rewrite IH; [lia|]. apply elem_of_cons in Hx as [?|?]; [contradiction|assumption].
Qed.

(** The counts of the distinct values of a column add up to its length. *)
Lemma sum_count_of (ks s : list Z) :
  NoDup ks -> (forall v, v ∈ s -> v ∈ ks) ->
  sum_list (map (fun v => count_of v s) ks) = length s.
Proof.
  intros Hnd. unfold count_of.
  induction s as [|x s IH]; intros Hcov; simpl.
  - apply sum_list_zero.
  - rewrite <- IH by (intros v Hv; apply Hcov; right; exact Hv).
    change (S ?n) with (1 + n).
    rewrite <- (sum_list_pick x ks Hnd) at 1 by (apply Hcov; left).
    rewrite <- sum_list_add. f_equal. apply map_ext. intros k.
    rewrite filter_cons. destruct (decide (x = k)); reflexivity.
Qed.

(** ** Running the store operations *)

Section Store.
Context (h : Heap) (l : loc) (fr : Frame).
Hypothesis Hl : h !! l = Some fr.

Lemma bind_run {A B} (m : M A) (k : A -> M B) (a : A) (h' : Heap) :
  m h = Some (a, h') -> bind m k h = k a h'.
Proof. unfold bind. intros ->. reflexivity. Qed.

Lemma load_run : load l h = Some (fr, h).
Proof. unfold load. rewrite Hl. reflexivity. Qed.

Lemma column_run {A} (col : LaunchRecord -> A) :
  column col l h = Some (getitem col (body fr), h).
Proof. unfold column. rewrite (bind_run _ _ _ _ load_run). reflexivity. Qed.

Lemma getitem_mask_run (mask : list bool) :
  length mask = length (body fr) ->
  getitem_mask l mask h =
  Some (length h,
        h ++ [ {| body := bool_index (body fr) mask;
                  Outcome := option_map (fun o => bool_index o mask) (Outcome fr) |} ]).
Proof.
  intros Hlen. unfold getitem_mask. rewrite (bind_run _ _ _ _ load_run).
  rewrite Hlen, Nat.eqb_refl. reflexivity.
Qed.

Lemma setitem_Outcome_run (s : list (option string)) :
  setitem_Outcome l s h =
  Some (tt, <[l := {| body := body fr; Outcome := Some s |}]> h).
Proof.
  unfold setitem_Outcome. rewrite (bind_run _ _ _ _ load_run).
  unfold store. rewrite Hl. reflexivity.
Qed.

Lemma px_scatter_run (o : list (option string)) :
  Outcome fr = Some o ->
  px_scatter l h = Some (zip (labels (body fr)) (zip (records (body fr)) o), h).
Proof.
  intros Ho. unfold px_scatter. rewrite (bind_run _ _ _ _ load_run).
  rewrite Ho. reflexivity.
Qed.
End Store.

(** A frame with its freshly computed ['Outcome'] column, row by row. *)
Lemma zip_with_outcome (df : DataFrame LaunchRecord) :
  zip (labels df) (zip (records df) (series_map outcome_dict (getitem class df)))
  = map with_outcome df.
Proof.
  unfold series_map, getitem, labels, records.
  induction df as [|[i r] df IH]; [reflexivity|].
  cbn [map zip_with fst snd]. rewrite IH. reflexivity.
Qed.

(** The two masks of [update_correlation_chart], row by row. *)
Lemma range_mask (df : DataFrame LaunchRecord) (a b : Q) :
  mask_and (ge_scalar (getitem Payload_Mass df) a) (le_scalar (getitem Payload_Mass df) b)
  = map (fun ir => in_range a b (snd ir)) df.
Proof.
  unfold mask_and, ge_scalar, le_scalar, getitem, records, in_range.
  rewrite !map_map, zip_with_map. reflexivity.
Qed.

Lemma site_mask (df : DataFrame LaunchRecord) (s : string) :
  eq_scalar (getitem Launch_Site df) s = map (fun ir => at_site s (snd ir)) df.
Proof. unfold eq_scalar, getitem, records, at_site. rewrite !map_map. reflexivity. Qed.

Lemma range_mask_length (df : DataFrame LaunchRecord) (a b : Q) :
  length (mask_and (ge_scalar (getitem Payload_Mass df) a)
                   (le_scalar (getitem Payload_Mass df) b)) = length df.
Proof. rewrite range_mask. apply length_map. Qed.

Lemma site_mask_length (df : DataFrame LaunchRecord) (s : string) :
  length (eq_scalar (getitem Launch_Site df) s) = length df.
Proof. rewrite site_mask. apply length_map. Qed.

(** ** Running the callbacks *)

(** [update_correlation_chart] returns, in any store that binds
    [spacex_data]: its frame holds the rows that pass both tests, labelled,
    and the store has only grown. *)
Lemma update_correlation_chart_run (h : Heap) (fr : Frame) (s : string) (a b : Q) :
  h !! spacex_data = Some fr ->
  exists extra,
    update_correlation_chart s (a, b) h =
    Some (map with_outcome
            (if negb (String.eqb s "ALL")
             then filter (fun ir => at_site s (snd ir) = true)
                         (filter (fun ir => in_range a b (snd ir) = true) (body fr))
             else filter (fun ir => in_range a b (snd ir) = true) (body fr)),
          h ++ extra).
Proof.
  intros H. unfold update_correlation_chart.
  rewrite (bind_run h _ _ _ _ (column_run h _ fr H _)).
  cbn [fst snd].
  rewrite (bind_run h _ _ _ _ (getitem_mask_run h _ fr H _ (range_mask_length _ a b))).
  match goal with |- context [ h ++ [?f] ] => set (f1 := f) end.
  assert (Hb1 : body f1 = filter (fun ir => in_range a b (snd ir) = true) (body fr))
    by (unfold f1; cbn [body]; rewrite range_mask, bool_index_map; reflexivity).
  assert (H1 : (h ++ [f1]) !! length h = Some f1)
    by (apply list_lookup_middle; reflexivity).
  destruct (negb (String.eqb s "ALL")).
  - pose (f2 := {| body := bool_index (body f1) (eq_scalar (getitem Launch_Site (body f1)) s);
                   Outcome := option_map
                     (fun o => bool_index o (eq_scalar (getitem Launch_Site (body f1)) s))
                     (Outcome f1) |}).
    assert (Hm : (let* sites := column Launch_Site (length h) in
                  getitem_mask (length h) (eq_scalar sites s)) (h ++ [f1])
                 = Some (length (h ++ [f1]), (h ++ [f1]) ++ [f2])).
    { rewrite (bind_run _ _ _ _ _ (column_run _ _ f1 H1 _)).
      rewrite (getitem_mask_run _ _ f1 H1 _ (site_mask_length _ s)). reflexivity. }
    assert (Hb2 : body f2 = filter (fun ir => at_site s (snd ir) = true) (body f1))
      by (unfold f2; cbn [body]; rewrite site_mask, bool_index_map; reflexivity).
    rewrite (bind_run _ _ _ _ _ Hm).
    assert (H2 : ((h ++ [f1]) ++ [f2]) !! length (h ++ [f1]) = Some f2)
      by (apply list_lookup_middle; reflexivity).
    rewrite (bind_run _ _ _ _ _ (column_run _ _ f2 H2 _)).
    rewrite (bind_run _ _ _ _ _ (setitem_Outcome_run _ _ f2 H2 _)).
    erewrite px_scatter_run;
      [| apply list_lookup_insert_eq; rewrite !length_app; simpl; lia | reflexivity].
    cbn [body]. rewrite zip_with_outcome, Hb2, Hb1.
    eexists [f1; _].
    f_equal. f_equal.
    rewrite insert_app_r_alt, Nat.sub_diag by lia. simpl.
    rewrite <- app_assoc. reflexivity.
  - rewrite (bind_run (h ++ [f1]) (ret (length h)) _ (length h) (h ++ [f1])) by reflexivity.
    rewrite (bind_run _ _ _ _ _ (column_run _ _ f1 H1 _)).
    rewrite (bind_run _ _ _ _ _ (setitem_Outcome_run _ _ f1 H1 _)).
    erewrite px_scatter_run;
      [| apply list_lookup_insert_eq; rewrite !length_app; simpl; lia | reflexivity].
    cbn [body]. rewrite zip_with_outcome, Hb1.
    eexists [_].
    f_equal. f_equal.
    rewrite insert_app_r_alt, Nat.sub_diag by lia. reflexivity.
Qed.

Lemma at_site_true (s : string) (r : LaunchRecord) :
  at_site s r = true <-> Launch_Site r = s.
Proof. unfold at_site. apply String.eqb_eq. Qed.

Lemma in_range_true (a b : Q) (r : LaunchRecord) :
  in_range a b r = true <-> (a <= Payload_Mass r)%Q /\ (Payload_Mass r <= b)%Q.
Proof.
  unfold in_range. rewrite andb_true_iff, !Qle_bool_iff. reflexivity.
Qed.

(** The rows a site mask keeps are the rows of that site. *)
Lemma records_at_site (df : DataFrame LaunchRecord) (s : string) :
  records (filter (fun ir => at_site s (snd ir) = true) df) = site_rows (records df) s.
Proof.
  unfold records, site_rows.
  induction df as [|[i r] df IH]; [reflexivity|].
  cbn [map snd].
  destruct (decide (Launch_Site r = s)) as [Hr|Hr].
  - rewrite (filter_cons_True (fun r => Launch_Site r = s)) by exact Hr.
    rewrite filter_cons_True by (apply at_site_true; exact Hr).
    cbn [map snd]. rewrite IH. reflexivity.
  - rewrite (filter_cons_False (fun r => Launch_Site r = s)) by exact Hr.
    rewrite filter_cons_False by (rewrite at_site_true; exact Hr).
    exact IH.
Qed.

Lemma setitem_fst_map {A B C} (f : A -> C) (l : list (A * B)) :
  setitem_fst (reset_index l) (map f (getitem fst (reset_index l)))
  = reset_index (map (fun x => (f (fst x), snd x)) l).
Proof.
  unfold setitem_fst, getitem.
  rewrite labels_reset_index, !records_reset_index.
  unfold reset_index. rewrite length_map. f_equal.
  induction l as [|x l IH]; [reflexivity|].
  cbn [map zip_with]. rewrite IH. reflexivity.
Qed.

(** With ["ALL"], [update_success_chart] returns the per-site table and
    leaves the store as it was. *)
Lemma update_success_chart_ALL_run (h : Heap) (fr : Frame) :
  h !! spacex_data = Some fr ->
  update_success_chart "ALL" h =
  Some (ByCategory
          (reset_index (map (site_entry (records (body fr)))
                            (groupby_keys (getitem Launch_Site (body fr))))),
        h).
Proof.
  intros H. unfold update_success_chart. cbn [String.eqb Ascii.eqb Bool.eqb].
  rewrite (bind_run h _ _ _ _ (load_run h _ fr H)).
  unfold ret. do 3 f_equal.
  unfold groupby, agg_sum, agg_size. rewrite !map_map. cbn [fst snd].
  apply (merge_aligned
           (fun k => sum_Z (map class (filter (fun r => Launch_Site r = k) (records (body fr)))))
           (fun k => length (filter (fun r => Launch_Site r = k) (records (body fr))))).
  apply NoDup_groupby_keys.
Qed.

(** With a site name, it returns the outcome counts of that site's rows; the
    store has only grown. *)
Lemma update_success_chart_site_run (h : Heap) (fr : Frame) (s : string) :
  s <> "ALL" ->
  h !! spacex_data = Some fr ->
  exists extra,
    update_success_chart s h =
    Some (ByOutcome
            (reset_index
               (map (fun vn => (dict_get outcome_dict (fst vn), snd vn))
                    (value_counts (map class (site_rows (records (body fr)) s))))),
          h ++ extra).
Proof.
  intros Hs H. unfold update_success_chart.
  apply String.eqb_neq in Hs. rewrite Hs.
  rewrite (bind_run h _ _ _ _ (column_run h _ fr H _)).
  rewrite (bind_run h _ _ _ _ (getitem_mask_run h _ fr H _ (site_mask_length _ s))).
  match goal with |- context [ h ++ [?f] ] => set (f1 := f) end.
  assert (H1 : (h ++ [f1]) !! length h = Some f1)
    by (apply list_lookup_middle; reflexivity).
  rewrite (bind_run _ _ _ _ _ (column_run _ _ f1 H1 _)).
  exists [f1]. unfold ret. do 3 f_equal.
  unfold series_map. rewrite setitem_fst_map. do 3 f_equal.
  unfold f1. cbn [body]. rewrite site_mask, bool_index_map.
  unfold getitem. rewrite records_at_site. reflexivity.
Qed.

(** ** The two transforms on a dataset *)

Lemma elem_of_map {A B} (f : A -> B) (l : list A) (y : B) :
  y ∈ map f l <-> exists x, y = f x /\ x ∈ l.
Proof.
  rewrite list_elem_of_In, in_map_iff. split.
  - intros (x & <- & Hx). exists x. rewrite list_elem_of_In. auto.
  - intros (x & -> & Hx). exists x. rewrite <- list_elem_of_In. auto.
Qed.

Lemma filter_none {A} (P : A -> Prop) `{!forall x, Decision (P x)} (l : list A) :
  (forall x, x ∈ l -> ~ P x) -> filter P l = [].
Proof.
  induction l as [|x l IH]; intros Hno; [reflexivity|].
  rewrite filter_cons_False by (apply Hno; left).
  apply IH. intros y Hy. apply Hno. right. exact Hy.
Qed.

Lemma body_read_csv (D : list LaunchRecord) : records (body (read_csv D)) = D.
Proof. apply records_reset_index. Qed.

Lemma module_heap_lookup (D : list LaunchRecord) :
  module_heap D !! spacex_data = Some (read_csv D).
Proof. reflexivity. Qed.

Lemma summarize_ALL (D : list LaunchRecord) :
  summarize D "ALL" =
  Some (ByCategory (reset_index (map (site_entry D) (groupby_keys (map Launch_Site D))))).
Proof.
  unfold summarize.
  rewrite (update_success_chart_ALL_run _ _ (module_heap_lookup D)).
  unfold getitem. rewrite body_read_csv. reflexivity.
Qed.

Lemma summarize_site (D : list LaunchRecord) (s : string) :
  s <> "ALL" ->
  summarize D s =
  Some (ByOutcome
          (reset_index
             (map (fun vn => (dict_get outcome_dict (fst vn), snd vn))
                  (value_counts (map class (site_rows D s)))))).
Proof.
  intros Hs. unfold summarize.
  destruct (update_success_chart_site_run _ _ s Hs (module_heap_lookup D)) as [extra ->].
  rewrite body_read_csv. reflexivity.
Qed.

Lemma correlate_rows (D : list LaunchRecord) (s : string) (a b : Q) :
  correlate D s a b =
  Some (map with_outcome
          (if negb (String.eqb s "ALL")
           then filter (fun ir => at_site s (snd ir) = true)
                       (filter (fun ir => in_range a b (snd ir) = true) (reset_index D))
           else filter (fun ir => in_range a b (snd ir) = true) (reset_index D))).
Proof.
  unfold correlate.
  destruct (update_correlation_chart_run _ _ s a b (module_heap_lookup D)) as [extra ->].
  reflexivity.
Qed.

(** Membership in the frame [correlate] returns. *)
Lemma elem_of_correlate (D : list LaunchRecord) (s : string) (a b : Q)
      (i : nat) (r : LaunchRecord) (o : option string) :
  (exists rows, correlate D s a b = Some rows /\ (i, (r, o)) ∈ rows) <->
  D !! i = Some r /\ o = outcome_label r /\ in_range a b r = true /\
  (s = "ALL" \/ Launch_Site r = s).
Proof.
  rewrite correlate_rows. split.
  - intros (rows & [= <-] & Hin).
    apply elem_of_map in Hin as ([j r'] & [= -> -> ->] & Hin). cbn [fst snd].
    destruct (String.eqb_spec s "ALL") as [->|Hs]; cbn [negb] in Hin.
    + apply list_elem_of_filter in Hin as [Hr Hin].
      apply reset_index_lookup in Hin. auto.
    + apply list_elem_of_filter in Hin as [Hs' Hin].
      apply list_elem_of_filter in Hin as [Hr Hin].
      apply reset_index_lookup in Hin. apply at_site_true in Hs'. auto 6.
  - intros (Hi & -> & Hr & Hs). eexists. split; [reflexivity|].
    apply elem_of_map. exists (i, r). split; [reflexivity|].
    assert (Hin : (i, r) ∈ reset_index D).
    { unfold reset_index. revert Hi. clear.
      assert (H : forall n i, D !! i = Some r -> (n + i, r) ∈ zip (seq n (length D)) D).
      { induction D as [|x D IH]; intros n [|j] Hj; simpl in *; try discriminate.
        - injection Hj as ->. rewrite Nat.add_0_r. left.
        - right. replace (n + S j) with (S n + j) by lia. apply IH, Hj. }
      apply (H 0 i). }
    destruct (String.eqb_spec s "ALL") as [->|Hne]; cbn [negb].
    + apply list_elem_of_filter. auto.
    + destruct Hs as [?|Hs]; [contradiction|].
      apply list_elem_of_filter. split; [apply at_site_true; exact Hs|].
      apply list_elem_of_filter. auto.
Qed.

(** Index labels: [reset_index] numbers the rows upwards, and boolean
    indexing keeps the labels in that order. *)
Lemma labels_reset_index_sorted {A} (l : list A) :
  StronglySorted lt (labels (reset_index l)).
Proof.
  rewrite labels_reset_index. generalize 0.
  induction l as [|x l IH]; intros n; simpl; [constructor|].
  constructor; [apply IH|].
  apply Forall_forall. intros j Hj. apply elem_of_seq in Hj. lia.
Qed.

Lemma labels_filter_sorted {A} (P : nat * A -> Prop) `{!forall x, Decision (P x)}
      (df : DataFrame A) :
  StronglySorted lt (labels df) -> StronglySorted lt (labels (filter P df)).
Proof.
  unfold labels. induction df as [|[i x] df IH]; intros Hs; [constructor|].
  cbn [map fst] in Hs. apply StronglySorted_cons in Hs as [Hi Hs].
  rewrite filter_cons. destruct (decide (P (i, x))); [|apply IH, Hs].
  cbn [map fst]. apply StronglySorted_cons. split; [|apply IH, Hs].
  rewrite Forall_forall in Hi |- *. intros j Hj. apply Hi.
  apply elem_of_map in Hj as (y & -> & Hy).
  apply list_elem_of_filter in Hy as [_ Hy].
  apply elem_of_map. exists y. auto.
Qed.

Lemma labels_with_outcome (df : DataFrame LaunchRecord) :
  labels (map with_outcome df) = labels df.
Proof. unfold labels. rewrite map_map. reflexivity. Qed.

(** * The claims *)

(** C1. For every dataset [D], site [s] and range [a <= b], [correlate]
    returns, and every row it returns has its payload mass between [a] and
    [b], both ends included, and is a row of site [s] unless [s] is the
    sentinel ["ALL"]. *)
Theorem correlate_rows_in_range_at_site
        (D : list LaunchRecord) (s : string) (a b : Q) :
  (a <= b)%Q ->
  exists rows,
    correlate D s a b = Some rows /\
    forall i r o, (i, (r, o)) ∈ rows ->
      (a <= Payload_Mass r)%Q /\ (Payload_Mass r <= b)%Q /\
      (s = "ALL" \/ Launch_Site r = s).
Proof.
  intros _. eexists. split; [apply correlate_rows|].
  intros i r o Hin.
  assert (H : exists rows, correlate D s a b = Some rows /\ (i, (r, o)) ∈ rows).
  { eexists. split; [apply correlate_rows|exact Hin]. }
  apply elem_of_correlate in H as (_ & _ & Hr & Hs).
  apply in_range_true in Hr as [Ha Hb]. auto.
Qed.

Lemma correlate_rows_in_range_at_site_witness :
  (0 <= 3000 # 1)%Q /\
  exists rows,
    correlate example_D "A" 0 (3000 # 1) = Some rows /\
    forall i r o, (i, (r, o)) ∈ rows ->
      (0 <= Payload_Mass r)%Q /\ (Payload_Mass r <= 3000 # 1)%Q /\
      ("A" = "ALL" \/ Launch_Site r = "A").
Proof.
  assert (H : (0 <= 3000 # 1)%Q) by (unfold Qle; simpl; lia).
  split; [exact H|].
  exact (correlate_rows_in_range_at_site example_D "A" 0 (3000 # 1) H).
Defined.

(** C4. For every dataset [D], site [s] and pair [a > b], [correlate]
    returns the empty frame; it does not raise. *)
Theorem correlate_inverted_range_empty
        (D : list LaunchRecord) (s : string) (a b : Q) :
  (b < a)%Q -> correlate D s a b = Some [].
Proof.
  intros Hab. rewrite correlate_rows.
  rewrite (filter_none (fun ir => in_range a b (snd ir) = true)).
  - rewrite filter_nil. destruct (negb (String.eqb s "ALL")); reflexivity.
  - intros [i r] _ Hr. apply in_range_true in Hr as [Ha Hb].
    apply (Qlt_not_le _ _ Hab). eapply Qle_trans; eassumption.
Qed.

Lemma correlate_inverted_range_empty_witness :
  (0 < 3000 # 1)%Q /\ correlate example_D "A" (3000 # 1) 0 = Some [].
Proof.
  assert (H : (0 < 3000 # 1)%Q) by (unfold Qlt; simpl; lia).
  split; [exact H|].
  exact (correlate_inverted_range_empty example_D "A" (3000 # 1) 0 H).
Defined.

(** C7. For every dataset [D], site [s] and range [a <= b], the rows
    [correlate] returns stand in the order they have in [D]: their index
    labels increase strictly, the row under label [i] is the row of [D] at
    position [i], and every row of [D] that passes the two tests is there. *)
Theorem correlate_keeps_dataset_order
        (D : list LaunchRecord) (s : string) (a b : Q) :
  (a <= b)%Q ->
  exists rows,
    correlate D s a b = Some rows /\
    StronglySorted lt (labels rows) /\
    (forall i r o, (i, (r, o)) ∈ rows -> D !! i = Some r) /\
    (forall i r, D !! i = Some r ->
       (a <= Payload_Mass r)%Q -> (Payload_Mass r <= b)%Q ->
       s = "ALL" \/ Launch_Site r = s ->
       (i, (r, outcome_label r)) ∈ rows).
Proof.
  intros _. eexists. split; [apply correlate_rows|]. split; [|split].
  - rewrite labels_with_outcome.
    destruct (negb (String.eqb s "ALL"));
      repeat apply labels_filter_sorted; apply labels_reset_index_sorted.
  - intros i r o Hin.
    assert (H : exists rows, correlate D s a b = Some rows /\ (i, (r, o)) ∈ rows).
    { eexists. split; [apply correlate_rows|exact Hin]. }
    apply elem_of_correlate in H. tauto.
  - intros i r Hi Ha Hb Hs.
    assert (H : exists rows, correlate D s a b = Some rows /\
                             (i, (r, outcome_label r)) ∈ rows).
    { apply elem_of_correlate. rewrite in_range_true. auto. }
    destruct H as (rows & Hrows & Hin).
    rewrite correlate_rows in Hrows. injection Hrows as <-. exact Hin.
Qed.

Lemma correlate_keeps_dataset_order_witness :
  (0 <= 3000 # 1)%Q /\
  exists rows,
    correlate example_D "ALL" 0 (3000 # 1) = Some rows /\
    StronglySorted lt (labels rows) /\
    (forall i r o, (i, (r, o)) ∈ rows -> example_D !! i = Some r) /\
    (forall i r, example_D !! i = Some r ->
       (0 <= Payload_Mass r)%Q -> (Payload_Mass r <= 3000 # 1)%Q ->
       "ALL" = "ALL" \/ Launch_Site r = "ALL" ->
       (i, (r, outcome_label r)) ∈ rows).
Proof.
  assert (H : (0 <= 3000 # 1)%Q) by (unfold Qle; simpl; lia).
  split; [exact H|].
  exact (correlate_keeps_dataset_order example_D "ALL" 0 (3000 # 1) H).
Defined.

(** A callback only adds objects to the store. *)
Lemma update_success_chart_extends (h : Heap) (fr : Frame) (s : string) :
  h !! spacex_data = Some fr ->
  exists res extra, update_success_chart s h = Some (res, h ++ extra).
Proof.
  intros H. destruct (String.eqb_spec s "ALL") as [->|Hs].
  - eexists. exists []. rewrite app_nil_r.
    apply (update_success_chart_ALL_run h fr H).
  - destruct (update_success_chart_site_run h fr s Hs H) as [extra Hrun]. eauto.
Qed.

Lemma update_correlation_chart_extends (h : Heap) (fr : Frame) (s : string) (a b : Q) :
  h !! spacex_data = Some fr ->
  exists res extra, update_correlation_chart s (a, b) h = Some (res, h ++ extra).
Proof.
  intros H. destruct (update_correlation_chart_run h fr s a b H) as [extra Hrun]. eauto.
Qed.

(** C6. Neither transform mutates the dataset: in every store that holds
    the dataset [D] under [spacex_data], each callback returns, and in the
    store it leaves [spacex_data] still holds [D], every row and field as
    before; so does every other object that was there. *)
Theorem callbacks_leave_dataset_unchanged
        (D : list LaunchRecord) (h : Heap) (s : string) (a b : Q) :
  h !! spacex_data = Some (read_csv D) ->
  (exists res h',
     update_success_chart s h = Some (res, h') /\
     h' !! spacex_data = Some (read_csv D) /\
     forall l fr, h !! l = Some fr -> h' !! l = Some fr) /\
  (exists rows h',
     update_correlation_chart s (a, b) h = Some (rows, h') /\
     h' !! spacex_data = Some (read_csv D) /\
     forall l fr, h !! l = Some fr -> h' !! l = Some fr).
Proof.
  intros H. split.
  - destruct (update_success_chart_extends h _ s H) as (res & extra & Hrun).
    exists res, (h ++ extra). split; [exact Hrun|].
    split; [apply lookup_app_l_Some, H|].
    intros l fr Hl. apply lookup_app_l_Some, Hl.
  - destruct (update_correlation_chart_extends h _ s a b H) as (rows & extra & Hrun).
    exists rows, (h ++ extra). split; [exact Hrun|].
    split; [apply lookup_app_l_Some, H|].
    intros l fr Hl. apply lookup_app_l_Some, Hl.
Qed.

Lemma callbacks_leave_dataset_unchanged_witness :
  module_heap example_D !! spacex_data = Some (read_csv example_D) /\
  (exists res h',
     update_success_chart "A" (module_heap example_D) = Some (res, h') /\
     h' !! spacex_data = Some (read_csv example_D) /\
     forall l fr, module_heap example_D !! l = Some fr -> h' !! l = Some fr) /\
  (exists rows h',
     update_correlation_chart "A" (0%Q, 3000 # 1) (module_heap example_D) = Some (rows, h') /\
     h' !! spacex_data = Some (read_csv example_D) /\
     forall l fr, module_heap example_D !! l = Some fr -> h' !! l = Some fr).
Proof.
  split; [reflexivity|].
  exact (callbacks_leave_dataset_unchanged example_D (module_heap example_D) "A"
           0 (3000 # 1) eq_refl).
Defined.

(** ** The per-site table *)

Lemma flags_valid_site_rows (D : list LaunchRecord) (k : string) :
  flags_valid D -> flags_valid (site_rows D k).
Proof.
  unfold flags_valid, site_rows. rewrite !Forall_forall.
  intros H r Hr. apply list_elem_of_filter in Hr as [_ Hr]. apply H, Hr.
Qed.

(** On 0/1 flags the sum of the column counts the successes. *)
Lemma sum_flags_count (D : list LaunchRecord) :
  flags_valid D ->
  sum_Z (map class D) = Z.of_nat (length (filter (fun r => class r = 1%Z) D)).
Proof.
  induction 1 as [|r D Hr _ IH]; [reflexivity|].
  cbn [map sum_Z foldr]. fold (sum_Z (map class D)). rewrite IH, filter_cons.
  destruct (decide (class r = 1%Z)) as [->|Hne].
  - cbn [length]. lia.
  - destruct Hr as [->|?]; [lia|contradiction].
Qed.

Lemma sum_flags_bounds (D : list LaunchRecord) :
  flags_valid D -> (0 <= sum_Z (map class D) <= Z.of_nat (length D))%Z.
Proof.
  induction 1 as [|r D Hr _ IH]; [simpl; lia|].
  cbn [map sum_Z foldr length]. fold (sum_Z (map class D)).
  destruct Hr as [->| ->]; lia.
Qed.

Lemma site_rows_nonempty (D : list LaunchRecord) (k : string) :
  k ∈ map Launch_Site D -> 1 <= length (site_rows D k).
Proof.
  intros Hk. apply elem_of_map in Hk as (r & -> & Hr).
  assert (Hin : r ∈ site_rows D (Launch_Site r))
    by (apply list_elem_of_filter; auto).
  destruct (site_rows D (Launch_Site r)); [inversion Hin|simpl; lia].
Qed.

Lemma site_of_site_entry (D : list LaunchRecord) (ks : list string) :
  map site_of (map (site_entry D) ks) = ks.
Proof. rewrite map_map. apply map_id. Qed.

(** C2. For every dataset [D], the [success_total]s of the tuples of
    [summarize D "ALL"] add up to the number of rows of [D] whose outcome
    flag is 1. The flags are 0 or 1, as the data model has them. *)
Theorem success_totals_add_up (D : list LaunchRecord) :
  flags_valid D ->
  exists result_df,
    summarize D "ALL" = Some (ByCategory result_df) /\
    sum_Z (map success_total (records result_df))
    = Z.of_nat (length (filter (fun r => class r = 1%Z) D)).
Proof.
  intros Hflags. eexists. split; [apply summarize_ALL|].
  rewrite records_reset_index, map_map. cbn [success_total site_entry fst snd].
  rewrite (sum_Z_by_site class).
  - apply sum_flags_count, Hflags.
  - apply NoDup_groupby_keys.
  - intros r Hr. apply elem_of_groupby_keys, elem_of_map. eauto.
Qed.

Lemma example_D_flags_valid : flags_valid example_D.
Proof. repeat (constructor; [simpl; auto|]). constructor. Qed.

Lemma success_totals_add_up_witness :
  flags_valid example_D /\
  exists result_df,
    summarize example_D "ALL" = Some (ByCategory result_df) /\
    sum_Z (map success_total (records result_df))
    = Z.of_nat (length (filter (fun r => class r = 1%Z) example_D)).
Proof.
  split; [exact example_D_flags_valid|].
  exact (success_totals_add_up example_D example_D_flags_valid).
Defined.

(** C8. For every dataset [D] (flags 0 or 1, as the data model has them),
    [summarize D "ALL"] has one tuple per distinct site of [D]: every row's
    site has a tuple, every tuple's site is the site of some row, and no site
    has two tuples.  A tuple carries the sum of the outcome flags of its
    site's rows and the number of those rows.  The tuples come in the order
    of the grouping, which is ascending site name; and the table is the same
    at every call on the same dataset, whatever else the store holds. *)
Theorem summarize_ALL_one_tuple_per_site (D : list LaunchRecord) :
  flags_valid D ->
  exists result_df,
    summarize D "ALL" = Some (ByCategory result_df) /\
    (forall r, r ∈ D ->
       exists t, t ∈ records result_df /\ site_of t = Launch_Site r) /\
    (forall t, t ∈ records result_df ->
       exists r, r ∈ D /\ Launch_Site r = site_of t) /\
    NoDup (map site_of (records result_df)) /\
    map site_of (records result_df) ≡ₚ launch_sites D /\
    (forall t, t ∈ records result_df ->
       success_total t = sum_Z (map class (site_rows D (site_of t))) /\
       record_total t = length (site_rows D (site_of t))) /\
    StronglySorted str_lt (map site_of (records result_df)) /\
    (forall h : Heap, h !! spacex_data = Some (read_csv D) ->
       update_success_chart "ALL" h = Some (ByCategory result_df, h)).
Proof.
  intros _. eexists. split; [apply summarize_ALL|].
  rewrite records_reset_index, site_of_site_entry.
  split; [|split; [|split; [|split; [|split; [|split]]]]].
  - intros r Hr. exists (site_entry D (Launch_Site r)). split; [|reflexivity].
    apply elem_of_map. exists (Launch_Site r). split; [reflexivity|].
    apply elem_of_groupby_keys, elem_of_map. eauto.
  - intros t Ht. apply elem_of_map in Ht as (k & -> & Hk).
    apply elem_of_groupby_keys, elem_of_map in Hk as (r & -> & Hr). eauto.
  - apply NoDup_groupby_keys.
  - apply groupby_keys_perm.
  - intros t Ht. apply elem_of_map in Ht as (k & -> & _). split; reflexivity.
  - apply groupby_keys_sorted.
  - intros h H. rewrite (update_success_chart_ALL_run h _ H).
    unfold getitem. rewrite body_read_csv. reflexivity.
Qed.

Lemma summarize_ALL_one_tuple_per_site_witness :
  flags_valid example_D /\
  exists result_df,
    summarize example_D "ALL" = Some (ByCategory result_df) /\
    (forall r, r ∈ example_D ->
       exists t, t ∈ records result_df /\ site_of t = Launch_Site r) /\
    (forall t, t ∈ records result_df ->
       exists r, r ∈ example_D /\ Launch_Site r = site_of t) /\
    NoDup (map site_of (records result_df)) /\
    map site_of (records result_df) ≡ₚ launch_sites example_D /\
    (forall t, t ∈ records result_df ->
       success_total t = sum_Z (map class (site_rows example_D (site_of t))) /\
       record_total t = length (site_rows example_D (site_of t))) /\
    StronglySorted str_lt (map site_of (records result_df)) /\
    (forall h : Heap, h !! spacex_data = Some (read_csv example_D) ->
       update_success_chart "ALL" h = Some (ByCategory result_df, h)).
Proof.
  split; [exact example_D_flags_valid|].
  exact (summarize_ALL_one_tuple_per_site example_D example_D_flags_valid).
Defined.

(** The order of the grouping is by site name, whichever site the data
    shows first. *)
Lemma summarize_ALL_orders_by_name :
  summarize [ mkLaunch "B" (500 # 1) "v1" "" 1; mkLaunch "A" (2000 # 1) "v1" "" 0 ] "ALL"
  = Some (ByCategory [(0, ("A", 0%Z, 1)); (1, ("B", 1%Z, 1))]).
Proof. reflexivity. Qed.

(** C10. For every dataset [D] with all outcome flags in {0, 1}, every
    tuple of [summarize D "ALL"] has [0 <= success_total <= record_total]
    and [record_total >= 1], and no site appears in two tuples. *)
Theorem summarize_ALL_tuple_bounds (D : list LaunchRecord) :
  flags_valid D ->
  exists result_df,
    summarize D "ALL" = Some (ByCategory result_df) /\
    (forall t, t ∈ records result_df ->
       (0 <= success_total t <= Z.of_nat (record_total t))%Z /\
       1 <= record_total t) /\
    NoDup (map site_of (records result_df)).
Proof.
  intros Hflags. eexists. split; [apply summarize_ALL|].
  rewrite records_reset_index, site_of_site_entry.
  split; [|apply NoDup_groupby_keys].
  intros t Ht. apply elem_of_map in Ht as (k & -> & Hk).
  cbn [success_total record_total site_entry fst snd]. split.
  - apply sum_flags_bounds, flags_valid_site_rows, Hflags.
  - apply site_rows_nonempty, elem_of_groupby_keys, Hk.
Qed.

Lemma summarize_ALL_tuple_bounds_witness :
  flags_valid example_D /\
  exists result_df,
    summarize example_D "ALL" = Some (ByCategory result_df) /\
    (forall t, t ∈ records result_df ->
       (0 <= success_total t <= Z.of_nat (record_total t))%Z /\
       1 <= record_total t) /\
    NoDup (map site_of (records result_df)).
Proof.
  split; [exact example_D_flags_valid|].
  exact (summarize_ALL_tuple_bounds example_D example_D_flags_valid).
Defined.

(** ** The per-outcome table *)

Lemma value_counts_perm (s : list Z) :
  value_counts s ≡ₚ map (fun v => (v, count_of v s)) (unique s).
Proof. apply stable_sort_perm. Qed.

Lemma elem_of_value_counts (s : list Z) (e : Z * nat) :
  e ∈ value_counts s -> fst e ∈ s /\ snd e = count_of (fst e) s.
Proof.
  rewrite value_counts_perm. intros He.
  apply elem_of_map in He as (v & -> & Hv).
  rewrite elem_of_unique in Hv. cbn [fst snd]. split; [exact Hv|reflexivity].
Qed.

Lemma count_of_pos (s : list Z) (v : Z) : v ∈ s -> 1 <= count_of v s.
Proof.
  intros Hv. unfold count_of.
  assert (Hin : v ∈ filter (fun x => x = v) s)
    by (apply list_elem_of_filter; auto).
  destruct (filter (fun x => x = v) s); [inversion Hin|simpl; lia].
Qed.

Lemma sum_value_counts (s : list Z) :
  sum_list (map snd (value_counts s)) = length s.
Proof.
  pose proof (Permutation_map snd (value_counts_perm s)) as Hp.
  rewrite Hp, map_map. cbn [snd].
  apply sum_count_of; [apply NoDup_unique|].
  intros v Hv. apply elem_of_unique, Hv.
Qed.

(** On 0/1 flags, counting a flag is counting its label. *)
Lemma count_of_label (rows : list LaunchRecord) (v : Z) :
  flags_valid rows -> v = 0%Z \/ v = 1%Z ->
  count_of v (map class rows)
  = length (filter (fun r => outcome_label r = dict_get outcome_dict v) rows).
Proof.
  intros Hflags Hv. unfold count_of.
  induction Hflags as [|r rows Hr _ IH]; [reflexivity|].
  cbn [map]. rewrite !filter_cons.
  destruct (decide (class r = v)) as [Hc|Hc];
    destruct (decide (outcome_label r = dict_get outcome_dict v)) as [Hl|Hl];
    cbn [length]; try (rewrite IH; reflexivity); exfalso.
  - apply Hl. unfold outcome_label. rewrite Hc. reflexivity.
  - apply Hc. unfold outcome_label in Hl.
    destruct Hr as [Hr|Hr], Hv as [-> | ->]; rewrite Hr in Hl |- *;
      try reflexivity; discriminate Hl.
Qed.

(** C3, as the code has it. For every dataset [D] (flags 0 or 1, as the
    data model has them) and every site [s] of [site_set] other than the
    sentinel ["ALL"], [summarize D s] holds only entries labelled
    ["Success"] or ["Failure"]; their counts add up to the number of rows of
    [D] with that site; and each entry counts the rows of the site that
    carry its label and counts at least one, so a label without rows is not
    emitted. *)
Theorem summarize_site_outcome_counts (D : list LaunchRecord) (s : string) :
  flags_valid D ->
  s ∈ launch_sites D ->
  s <> "ALL" ->
  exists outcomes,
    summarize D s = Some (ByOutcome outcomes) /\
    (forall e, e ∈ records outcomes ->
       fst e = Some "Success" \/ fst e = Some "Failure") /\
    sum_list (map snd (records outcomes)) = length (site_rows D s) /\
    (forall e, e ∈ records outcomes ->
       1 <= snd e /\
       snd e = length (filter (fun r => outcome_label r = fst e) (site_rows D s))).
Proof.
  intros Hflags _ Hs. eexists. split; [apply (summarize_site D s Hs)|].
  rewrite records_reset_index.
  pose proof (flags_valid_site_rows D s Hflags) as Hrows.
  assert (Hval : forall e, e ∈ value_counts (map class (site_rows D s)) ->
                           fst e = 0%Z \/ fst e = 1%Z).
  { intros e He. apply elem_of_value_counts in He as [He _].
    apply elem_of_map in He as (r & -> & Hr).
    unfold flags_valid in Hrows. rewrite Forall_forall in Hrows. apply Hrows, Hr. }
  split; [|split].
  - intros e He. apply elem_of_map in He as (vn & -> & Hvn). cbn [fst].
    destruct (Hval vn Hvn) as [-> | ->]; [right|left]; reflexivity.
  - rewrite map_map. cbn [snd].
    change (fun x : Z * nat => snd x) with (@snd Z nat).
    rewrite sum_value_counts. apply length_map.
  - intros e He. apply elem_of_map in He as (vn & -> & Hvn). cbn [fst snd].
    pose proof (Hval vn Hvn) as Hv.
    apply elem_of_value_counts in Hvn as [Hin ->]. split.
    + apply count_of_pos, Hin.
    + apply count_of_label; assumption.
Qed.

Lemma summarize_site_outcome_counts_witness :
  flags_valid example_D /\ "A" ∈ launch_sites example_D /\ "A" <> "ALL" /\
  exists outcomes,
    summarize example_D "A" = Some (ByOutcome outcomes) /\
    (forall e, e ∈ records outcomes ->
       fst e = Some "Success" \/ fst e = Some "Failure") /\
    sum_list (map snd (records outcomes)) = length (site_rows example_D "A") /\
    (forall e, e ∈ records outcomes ->
       1 <= snd e /\
       snd e = length (filter (fun r => outcome_label r = fst e) (site_rows example_D "A"))).
Proof.
  assert (H1 : "A" ∈ launch_sites example_D) by (left).
  assert (H2 : "A" <> "ALL") by discriminate.
  split; [exact example_D_flags_valid|]. split; [exact H1|]. split; [exact H2|].
  exact (summarize_site_outcome_counts example_D "A" example_D_flags_valid H1 H2).
Defined.

(** C3, as stated, fails when a launch site is itself named ["ALL"]: the
    name is in [site_set], yet [summarize] takes it for the sentinel and
    returns the per-site table, whose one entry is labelled ["ALL"]. *)
Lemma summarize_site_named_ALL_is_per_site :
  flags_valid site_named_ALL /\
  "ALL" ∈ launch_sites site_named_ALL /\
  summarize site_named_ALL "ALL" = Some (ByCategory [(0, ("ALL", 1%Z, 1))]) /\
  ~ (exists outcomes,
       summarize site_named_ALL "ALL" = Some (ByOutcome outcomes) /\
       (forall e, e ∈ records outcomes ->
          fst e = Some "Success" \/ fst e = Some "Failure") /\
       sum_list (map snd (records outcomes)) = length (site_rows site_named_ALL "ALL") /\
       (forall e, e ∈ records outcomes ->
          1 <= snd e /\
          snd e = length (filter (fun r => outcome_label r = fst e)
                                 (site_rows site_named_ALL "ALL")))).
Proof.
  split; [repeat (constructor; [simpl; auto|]); constructor|].
  split; [left|]. split; [reflexivity|].
  intros (outcomes & Hsum & _). discriminate Hsum.
Qed.

(** C5. For every dataset [D] and every [selected_site] that is neither
    the sentinel ["ALL"] nor in [site_set], [summarize] returns the empty
    per-outcome table; it does not raise. *)
Theorem summarize_unknown_site_empty (D : list LaunchRecord) (selected_site : string) :
  selected_site <> "ALL" ->
  selected_site ∉ launch_sites D ->
  summarize D selected_site = Some (ByOutcome []).
Proof.
  intros Hs Hno. rewrite (summarize_site D _ Hs).
  unfold site_rows. rewrite filter_none; [reflexivity|].
  intros r Hr Hsite. apply Hno. unfold launch_sites.
  apply elem_of_unique, elem_of_map. eauto.
Qed.

Lemma summarize_unknown_site_empty_witness :
  "C" <> "ALL" /\ ("C" ∉ launch_sites example_D) /\
  summarize example_D "C" = Some (ByOutcome []).
Proof.
  assert (H1 : "C" <> "ALL") by discriminate.
  assert (H2 : "C" ∉ launch_sites example_D).
  { intros H. vm_compute in H. repeat (apply elem_of_cons in H as [H|H]; [discriminate H|]).
    inversion H. }
  split; [exact H1|]. split; [exact H2|].
  exact (summarize_unknown_site_empty example_D "C" H1 H2).
Defined.

(** C9, as stated, fails: on the example dataset [summarize D "A"] is not
    the sequence [("Failure", 1), ("Success", 1)]. *)
Lemma summarize_example_A_not_failure_first :
  ~ (exists outcomes,
       summarize example_D "A" = Some (ByOutcome outcomes) /\
       records outcomes = [(Some "Failure", 1); (Some "Success", 1)]).
Proof.
  intros (outcomes & Hsum & Hrec).
  vm_compute in Hsum. injection Hsum as <-. discriminate Hrec.
Qed.

(** C9, as the code has it. On the example dataset [summarize D "A"] is
    exactly the sequence [("Success", 1), ("Failure", 1)]: both flags occur
    once, and of two equal counts the flag met first in the data, here 1,
    comes first. *)
Theorem summarize_example_A :
  exists outcomes,
    summarize example_D "A" = Some (ByOutcome outcomes) /\
    records outcomes = [(Some "Success", 1); (Some "Failure", 1)].
Proof. eexists. split; reflexivity. Qed.

(** * Further properties of the module *)

(** ** Slider bounds *)

Lemma foldl_min_spec (s : list Q) (x : Q) :
  let m := foldl (fun m v => if Qle_bool m v then m else v) x s in
  m ∈ x :: s /\ forall v, v ∈ x :: s -> (m <= v)%Q.
Proof.
  revert x. induction s as [|w s IH]; intros x; cbn [foldl].
  - split; [left|]. intros v Hv. apply list_elem_of_singleton in Hv as ->. apply Qle_refl.
  - destruct (IH (if Qle_bool x w then x else w)) as [Hin Hle]. split.
    + apply elem_of_cons in Hin as [->|Hin].
      * destruct (Qle_bool x w); [left|right; left].
      * right. right. exact Hin.
    + assert (Hxw : ((if Qle_bool x w then x else w) <= x)%Q /\
                    ((if Qle_bool x w then x else w) <= w)%Q).
      { destruct (Qle_bool x w) eqn:E.
        - apply Qle_bool_iff in E. split; [apply Qle_refl|exact E].
        - split; [|apply Qle_refl]. apply Qlt_le_weak, Qnot_le_lt.
          intros H. apply Qle_bool_iff in H. congruence. }
      intros v Hv. apply elem_of_cons in Hv as [->|Hv].
      * eapply Qle_trans; [apply Hle; left|apply Hxw].
      * apply elem_of_cons in Hv as [->|Hv].
        -- eapply Qle_trans; [apply Hle; left|apply Hxw].
        -- apply Hle. right. exact Hv.
Qed.

Lemma foldl_max_spec (s : list Q) (x : Q) :
  let m := foldl (fun m v => if Qle_bool v m then m else v) x s in
  m ∈ x :: s /\ forall v, v ∈ x :: s -> (v <= m)%Q.
Proof.
  revert x. induction s as [|w s IH]; intros x; cbn [foldl].
  - split; [left|]. intros v Hv. apply list_elem_of_singleton in Hv as ->. apply Qle_refl.
  - destruct (IH (if Qle_bool w x then x else w)) as [Hin Hle]. split.
    + apply elem_of_cons in Hin as [->|Hin].
      * destruct (Qle_bool w x); [left|right; left].
      * right. right. exact Hin.
    + assert (Hxw : (x <= (if Qle_bool w x then x else w))%Q /\
                    (w <= (if Qle_bool w x then x else w))%Q).
      { destruct (Qle_bool w x) eqn:E.
        - apply Qle_bool_iff in E. split; [apply Qle_refl|exact E].
        - split; [|apply Qle_refl]. apply Qlt_le_weak, Qnot_le_lt.
          intros H. apply Qle_bool_iff in H. congruence. }
      intros v Hv. apply elem_of_cons in Hv as [->|Hv].
      * eapply Qle_trans; [apply Hxw|apply Hle; left].
      * apply elem_of_cons in Hv as [->|Hv].
        -- eapply Qle_trans; [apply Hxw|apply Hle; left].
        -- apply Hle. right. exact Hv.
Qed.

Lemma payload_range_covers (D : list LaunchRecord) (lo hi : Q) :
  payload_min D = Some lo ->
  payload_max D = Some hi ->
  forall r, r ∈ D -> (lo <= Payload_Mass r)%Q /\ (Payload_Mass r <= hi)%Q.
Proof.
  unfold payload_min, payload_max, series_min, series_max.
  destruct D as [|r0 D]; [discriminate|]. cbn [map].
  intros [= <-] [= <-] r Hr.
  destruct (foldl_min_spec (map Payload_Mass D) (Payload_Mass r0)) as [_ Hle].
  destruct (foldl_max_spec (map Payload_Mass D) (Payload_Mass r0)) as [_ Hge].
  change (Payload_Mass r0 :: map Payload_Mass D) with (map Payload_Mass (r0 :: D)) in *.
  split; [apply Hle|apply Hge]; apply elem_of_map; eauto.
Qed.

Lemma payload_min_max_defined (D : list LaunchRecord) :
  D <> [] -> exists lo hi, payload_min D = Some lo /\ payload_max D = Some hi.
Proof.
  destruct D as [|r0 D]; [contradiction|]. intros _.
  unfold payload_min, payload_max, series_min, series_max. cbn [map]. eauto.
Qed.

(** X1. When the dataset has rows, [payload_min] and [payload_max] are
    numbers (not NaN), each the payload mass of some row of the dataset, and
    every row's payload mass lies between them. *)
Theorem payload_bounds (D : list LaunchRecord) :
  D <> [] ->
  exists lo hi,
    payload_min D = Some lo /\
    payload_max D = Some hi /\
    (exists r, r ∈ D /\ Payload_Mass r = lo) /\
    (exists r, r ∈ D /\ Payload_Mass r = hi) /\
    forall r, r ∈ D -> (lo <= Payload_Mass r)%Q /\ (Payload_Mass r <= hi)%Q.
Proof.
  intros Hne. destruct (payload_min_max_defined D Hne) as (lo & hi & Hlo & Hhi).
  exists lo, hi. split; [exact Hlo|]. split; [exact Hhi|].
  split; [|split; [|apply payload_range_covers; assumption]].
  - unfold payload_min, series_min in Hlo.
    destruct D as [|r0 D]; [discriminate|]. cbn [map] in Hlo. injection Hlo as <-.
    destruct (foldl_min_spec (map Payload_Mass D) (Payload_Mass r0)) as [Hmin _].
    change (Payload_Mass r0 :: map Payload_Mass D) with (map Payload_Mass (r0 :: D)) in Hmin.
    apply elem_of_map in Hmin as (r & Hr & Hin). eauto.
  - unfold payload_max, series_max in Hhi.
    destruct D as [|r0 D]; [discriminate|]. cbn [map] in Hhi. injection Hhi as <-.
    destruct (foldl_max_spec (map Payload_Mass D) (Payload_Mass r0)) as [Hmax _].
    change (Payload_Mass r0 :: map Payload_Mass D) with (map Payload_Mass (r0 :: D)) in Hmax.
    apply elem_of_map in Hmax as (r & Hr & Hin). eauto.
Qed.

Lemma payload_bounds_witness :
  example_D <> [] /\
  exists lo hi,
    payload_min example_D = Some lo /\
    payload_max example_D = Some hi /\
    (exists r, r ∈ example_D /\ Payload_Mass r = lo) /\
    (exists r, r ∈ example_D /\ Payload_Mass r = hi) /\
    forall r, r ∈ example_D -> (lo <= Payload_Mass r)%Q /\ (Payload_Mass r <= hi)%Q.
Proof.
  assert (H : example_D <> []) by discriminate.
  split; [exact H|].
  exact (payload_bounds example_D H).
Defined.

(** ** The scatter frame *)

Lemma filter_all {A} (P : A -> Prop) `{!forall x, Decision (P x)} (l : list A) :
  (forall x, x ∈ l -> P x) -> filter P l = l.
Proof.
  induction l as [|x l IH]; intros Hall; [reflexivity|].
  rewrite filter_cons_True by (apply Hall; left).
  f_equal. apply IH. intros y Hy. apply Hall. right. exact Hy.
Qed.

Lemma filter_map_comm {A B} (f : A -> B) (P : B -> Prop)
      `{!forall y, Decision (P y)} (l : list A) :
  filter P (map f l) = map f (filter (fun x => P (f x)) l).
Proof.
  induction l as [|x l IH]; [reflexivity|].
  cbn [map]. rewrite !filter_cons. destruct (decide (P (f x))).
  - cbn [map]. rewrite IH. reflexivity.
  - exact IH.
Qed.

Lemma slider_value_bounds (D : list LaunchRecord) (lo hi : Q) :
  slider_value D = Some (lo, hi) -> payload_min D = Some lo /\ payload_max D = Some hi.
Proof.
  unfold slider_value.
  destruct (payload_min D), (payload_max D); try discriminate.
  intros [= -> ->]. auto.
Qed.

(** X2. With the selections the page starts with, the dropdown on ["ALL"]
    and the slider on [[payload_min, payload_max]], the scatter frame holds
    every row of the dataset, in the dataset's order and under its labels. *)
Theorem initial_view_shows_every_row (D : list LaunchRecord) (lo hi : Q) :
  slider_value D = Some (lo, hi) ->
  exists rows,
    correlate D dropdown_value lo hi = Some rows /\
    map (fun x => fst (snd x)) rows = D /\
    labels rows = seq 0 (length D).
Proof.
  intros Hv. apply slider_value_bounds in Hv as [Hlo Hhi].
  pose proof (payload_range_covers D lo hi Hlo Hhi) as Hall.
  eexists. split; [apply correlate_rows|].
  cbn [dropdown_value String.eqb Ascii.eqb Bool.eqb negb].
  rewrite filter_all.
  - split.
    + rewrite map_map. cbn [with_outcome fst snd].
      apply (records_reset_index D).
    + rewrite labels_with_outcome. apply labels_reset_index.
  - intros [i r] Hin. apply reset_index_lookup in Hin.
    apply in_range_true, Hall. apply list_elem_of_lookup. eauto.
Qed.

Lemma initial_view_shows_every_row_witness :
  slider_value example_D = Some (500 # 1, 9000 # 1) /\
  exists rows,
    correlate example_D dropdown_value (500 # 1) (9000 # 1) = Some rows /\
    map (fun x => fst (snd x)) rows = example_D /\
    labels rows = seq 0 (length example_D).
Proof.
  split; [reflexivity|].
  exact (initial_view_shows_every_row example_D (500 # 1) (9000 # 1) eq_refl).
Defined.

(** X3. For a site, the scatter frame is the frame of ["ALL"] on the same
    range with the rows of other sites left out. *)
Theorem correlate_site_filters_ALL (D : list LaunchRecord) (s : string) (a b : Q) :
  s <> "ALL" ->
  exists all,
    correlate D "ALL" a b = Some all /\
    correlate D s a b =
    Some (filter (fun x => Launch_Site (fst (snd x)) = s) all).
Proof.
  intros Hs. eexists. split; [apply correlate_rows|].
  rewrite correlate_rows. apply String.eqb_neq in Hs. rewrite Hs.
  cbn [String.eqb Ascii.eqb Bool.eqb negb]. f_equal.
  rewrite filter_map_comm. f_equal.
  apply list_filter_iff. intros [i r]. cbn [with_outcome fst snd].
  apply at_site_true.
Qed.

Lemma correlate_site_filters_ALL_witness :
  "A" <> "ALL" /\
  exists all,
    correlate example_D "ALL" 0 (3000 # 1) = Some all /\
    correlate example_D "A" 0 (3000 # 1) =
    Some (filter (fun x => Launch_Site (fst (snd x)) = "A") all).
Proof.
  assert (H : "A" <> "ALL") by discriminate.
  split; [exact H|].
  exact (correlate_site_filters_ALL example_D "A" 0 (3000 # 1) H).
Defined.

(** X4. Widening the range never loses a row: every row of the scatter frame
    for [[a, b]] is in the frame for a range [[a', b']] that contains it. *)
Theorem correlate_monotone_in_range
        (D : list LaunchRecord) (s : string) (a b a' b' : Q) :
  (a' <= a)%Q -> (b <= b')%Q ->
  exists rows rows',
    correlate D s a b = Some rows /\
    correlate D s a' b' = Some rows' /\
    forall x, x ∈ rows -> x ∈ rows'.
Proof.
  intros Ha Hb. eexists. eexists.
  split; [apply correlate_rows|]. split; [apply correlate_rows|].
  intros [i [r o]] Hin.
  assert (H : exists rows, correlate D s a b = Some rows /\ (i, (r, o)) ∈ rows).
  { eexists. split; [apply correlate_rows|exact Hin]. }
  apply elem_of_correlate in H as (Hi & Ho & Hr & Hsite).
  assert (H' : exists rows, correlate D s a' b' = Some rows /\ (i, (r, o)) ∈ rows).
  { apply elem_of_correlate. split; [exact Hi|]. split; [exact Ho|].
    split; [|exact Hsite].
    apply in_range_true in Hr as [H1 H2]. apply in_range_true.
    split; eapply Qle_trans; eassumption. }
  destruct H' as (rows' & Hrows' & Hin').
  rewrite correlate_rows in Hrows'. injection Hrows' as <-. exact Hin'.
Qed.

Lemma correlate_monotone_in_range_witness :
  (0 <= 1000 # 1)%Q /\ (3000 # 1 <= 9000 # 1)%Q /\
  exists rows rows',
    correlate example_D "A" (1000 # 1) (3000 # 1) = Some rows /\
    correlate example_D "A" 0 (9000 # 1) = Some rows' /\
    forall x, x ∈ rows -> x ∈ rows'.
Proof.
  assert (H1 : (0 <= 1000 # 1)%Q) by (unfold Qle; simpl; lia).
  assert (H2 : (3000 # 1 <= 9000 # 1)%Q) by (unfold Qle; simpl; lia).
  split; [exact H1|]. split; [exact H2|].
  exact (correlate_monotone_in_range example_D "A" (1000 # 1) (3000 # 1) 0 (9000 # 1) H1 H2).
Defined.

(** X5. The label in column ['Outcome'] of a row of the scatter frame is
    that row's own flag put into words: ["Success"] exactly for flag 1,
    ["Failure"] exactly for flag 0, and NaN exactly for any other flag. *)
Theorem correlate_labels_follow_class
        (D : list LaunchRecord) (s : string) (a b : Q) :
  exists rows,
    correlate D s a b = Some rows /\
    forall i r o, (i, (r, o)) ∈ rows ->
      (o = Some "Success" <-> class r = 1%Z) /\
      (o = Some "Failure" <-> class r = 0%Z) /\
      (o = None <-> class r <> 1%Z /\ class r <> 0%Z).
Proof.
  eexists. split; [apply correlate_rows|].
  intros i r o Hin.
  assert (H : exists rows, correlate D s a b = Some rows /\ (i, (r, o)) ∈ rows).
  { eexists. split; [apply correlate_rows|exact Hin]. }
  apply elem_of_correlate in H as (_ & -> & _ & _).
  unfold outcome_label, outcome_dict. cbn [dict_get].
  destruct (Z.eqb_spec 1 (class r)) as [H1|H1];
    [|destruct (Z.eqb_spec 0 (class r)) as [H0|H0]].
  - rewrite <- H1. repeat split; intros; try discriminate; try reflexivity; lia.
  - rewrite <- H0. repeat split; intros; try discriminate; try reflexivity; lia.
  - repeat split; intros; try discriminate; try congruence; lia.
Qed.

(** X6. For a site that is neither ["ALL"] nor a site of the dataset the
    scatter frame is empty, whatever the range; the callback does not
    raise. *)
Theorem correlate_unknown_site_empty
        (D : list LaunchRecord) (s : string) (a b : Q) :
  s <> "ALL" -> s ∉ launch_sites D -> correlate D s a b = Some [].
Proof.
  intros Hs Hno. rewrite correlate_rows.
  apply String.eqb_neq in Hs. rewrite Hs. cbn [negb].
  rewrite (filter_none (fun ir => at_site s (snd ir) = true)); [reflexivity|].
  intros [i r] Hin Hr. apply list_elem_of_filter in Hin as [_ Hin].
  apply reset_index_lookup in Hin. apply at_site_true in Hr.
  apply Hno. unfold launch_sites. apply elem_of_unique, elem_of_map.
  exists r. split; [symmetry; exact Hr|]. apply list_elem_of_lookup. eauto.
Qed.

Lemma correlate_unknown_site_empty_witness :
  "C" <> "ALL" /\ ("C" ∉ launch_sites example_D) /\
  correlate example_D "C" 0 (9000 # 1) = Some [].
Proof.
  assert (H1 : "C" <> "ALL") by discriminate.
  assert (H2 : "C" ∉ launch_sites example_D).
  { intros H. vm_compute in H. repeat (apply elem_of_cons in H as [H|H]; [discriminate H|]).
    inversion H. }
  split; [exact H1|]. split; [exact H2|].
  exact (correlate_unknown_site_empty example_D "C" 0 (9000 # 1) H1 H2).
Defined.

(** ** Calls in any store *)

(** X7. What a callback returns depends on the dataset alone: in every
    store that holds the dataset under [spacex_data], whatever other frames
    earlier calls have left there, each callback returns what it returns
    right after the module is loaded. *)
Theorem callbacks_ignore_rest_of_store
        (D : list LaunchRecord) (h : Heap) (s : string) (a b : Q) :
  h !! spacex_data = Some (read_csv D) ->
  option_map fst (update_success_chart s h) = summarize D s /\
  option_map fst (update_correlation_chart s (a, b) h) = correlate D s a b.
Proof.
  intros H. split.
  - unfold summarize. destruct (String.eqb_spec s "ALL") as [->|Hs].
    + rewrite (update_success_chart_ALL_run h _ H).
      rewrite (update_success_chart_ALL_run _ _ (module_heap_lookup D)). reflexivity.
    + destruct (update_success_chart_site_run h _ s Hs H) as [e1 ->].
      destruct (update_success_chart_site_run _ _ s Hs (module_heap_lookup D)) as [e2 ->].
      reflexivity.
  - unfold correlate.
    destruct (update_correlation_chart_run h _ s a b H) as [e1 ->].
    destruct (update_correlation_chart_run _ _ s a b (module_heap_lookup D)) as [e2 ->].
    reflexivity.
Qed.

Lemma callbacks_ignore_rest_of_store_witness :
  [read_csv example_D; read_csv site_named_ALL] !! spacex_data = Some (read_csv example_D) /\
  option_map fst (update_success_chart "A" [read_csv example_D; read_csv site_named_ALL])
  = summarize example_D "A" /\
  option_map fst (update_correlation_chart "A" (0%Q, 3000 # 1)
                    [read_csv example_D; read_csv site_named_ALL])
  = correlate example_D "A" 0 (3000 # 1).
Proof.
  split; [reflexivity|].
  exact (callbacks_ignore_rest_of_store example_D
           [read_csv example_D; read_csv site_named_ALL] "A" 0 (3000 # 1) eq_refl).
Defined.

(** ** The per-outcome table, further *)

Lemma site_rows_unknown (D : list LaunchRecord) (s : string) :
  s ∉ launch_sites D -> site_rows D s = [].
Proof.
  intros Hno. unfold site_rows. apply filter_none.
  intros r Hr Hsite. apply Hno. unfold launch_sites.
  apply elem_of_unique, elem_of_map. eauto.
Qed.

Lemma site_rows_known (D : list LaunchRecord) (s : string) :
  s ∈ launch_sites D -> site_rows D s <> [].
Proof.
  unfold launch_sites. rewrite elem_of_unique. intros Hs.
  pose proof (site_rows_nonempty D s Hs) as Hlen.
  intros E. rewrite E in Hlen. simpl in Hlen. lia.
Qed.

Lemma reset_index_nil {A} (l : list A) : reset_index l = [] -> l = [].
Proof. intros E. rewrite <- (records_reset_index l), E. reflexivity. Qed.

Lemma value_counts_nil (s : list Z) : value_counts s = [] -> s = [].
Proof.
  intros E. pose proof (value_counts_perm s) as Hp. rewrite E in Hp.
  apply Permutation_nil in Hp. apply map_eq_nil in Hp.
  destruct s as [|x s]; [reflexivity|].
  assert (Hx : x ∈ unique (x :: s)) by (apply elem_of_unique; left).
  rewrite Hp in Hx. inversion Hx.
Qed.

(** X8. For a selection other than ["ALL"], the per-outcome table is empty
    exactly when the selection is no site of the dataset. *)
Theorem summarize_site_empty_iff_unknown (D : list LaunchRecord) (s : string) :
  s <> "ALL" ->
  (summarize D s = Some (ByOutcome []) <-> s ∉ launch_sites D).
Proof.
  intros Hs. rewrite (summarize_site D s Hs). split.
  - intros [= E] Hin. apply reset_index_nil, map_eq_nil, value_counts_nil, map_eq_nil in E.
    exact (site_rows_known D s Hin E).
  - intros Hno. rewrite (site_rows_unknown D s Hno). reflexivity.
Qed.

Lemma summarize_site_empty_iff_unknown_witness :
  "C" <> "ALL" /\
  (summarize example_D "C" = Some (ByOutcome []) <-> "C" ∉ launch_sites example_D).
Proof.
  assert (H : "C" <> "ALL") by discriminate.
  split; [exact H|].
  exact (summarize_site_empty_iff_unknown example_D "C" H).
Defined.

Lemma value_counts_sorted (s : list Z) :
  StronglySorted (fun x y : Z * nat => snd y <= snd x) (value_counts s).
Proof.
  apply Sorted_StronglySorted; [intros x y z; lia|].
  unfold value_counts.
  set (leb := fun x y : Z * nat => Nat.leb (snd y) (snd x)).
  assert (Htot : forall x y, leb x y = true \/ leb y x = true).
  { intros x y. unfold leb. destruct (Nat.leb_spec (snd y) (snd x)); [auto|].
    right. apply Nat.leb_le. lia. }
  pose proof (stable_sort_Sorted leb Htot (map (fun v => (v, count_of v s)) (unique s))) as Hs.
  induction Hs as [|x l Hs IH Hd]; constructor; [exact IH|].
  destruct Hd as [|y l Hxy]; constructor. apply Nat.leb_le in Hxy. exact Hxy.
Qed.

(** X9. The per-outcome table lists the more frequent outcome first: the
    counts never rise from one entry to a later one. *)
Theorem summarize_site_most_frequent_first (D : list LaunchRecord) (s : string) :
  s <> "ALL" ->
  exists outcomes,
    summarize D s = Some (ByOutcome outcomes) /\
    StronglySorted (fun x y : option string * nat => snd y <= snd x) (records outcomes).
Proof.
  intros Hs. eexists. split; [apply (summarize_site D s Hs)|].
  rewrite records_reset_index.
  generalize (value_counts_sorted (map class (site_rows D s))).
  generalize (value_counts (map class (site_rows D s))).
  induction 1 as [|x l Hl IH Hx]; cbn [map]; constructor; [exact IH|].
  pose proof (proj1 (Forall_forall _ _) Hx) as Hx'.
  apply Forall_forall. intros y Hy.
  apply elem_of_map in Hy as (vn & -> & Hvn). cbn [snd]. apply Hx', Hvn.
Qed.

Lemma summarize_site_most_frequent_first_witness :
  "A" <> "ALL" /\
  exists outcomes,
    summarize example_D "A" = Some (ByOutcome outcomes) /\
    StronglySorted (fun x y : option string * nat => snd y <= snd x) (records outcomes).
Proof.
  assert (H : "A" <> "ALL") by discriminate.
  split; [exact H|].
  exact (summarize_site_most_frequent_first example_D "A" H).
Defined.

Lemma NoDup_map_inj_on {A B} (f : A -> B) (l : list A) :
  (forall x y, x ∈ l -> y ∈ l -> f x = f y -> x = y) ->
  NoDup l -> NoDup (map f l).
Proof.
  intros Hinj. induction 1 as [|x l Hx Hnd IH]; cbn [map]; constructor.
  - intros Hfx. apply elem_of_map in Hfx as (y & Heq & Hy).
    apply Hinj in Heq; [|left|right; exact Hy]. subst y. contradiction.
  - apply IH. intros y z Hy Hz. apply Hinj; right; assumption.
Qed.

Lemma value_counts_values (s : list Z) : map fst (value_counts s) ≡ₚ unique s.
Proof.
  rewrite (Permutation_map fst (value_counts_perm s)), map_map. cbn [fst].
  rewrite map_id. reflexivity.
Qed.

(** X10. On 0/1 flags the per-outcome table has at most two entries, and
    no label twice. *)
Theorem summarize_site_labels_distinct (D : list LaunchRecord) (s : string) :
  flags_valid D ->
  s <> "ALL" ->
  exists outcomes,
    summarize D s = Some (ByOutcome outcomes) /\
    NoDup (map fst (records outcomes)) /\
    length outcomes <= 2.
Proof.
  intros Hflags Hs. eexists. split; [apply (summarize_site D s Hs)|].
  rewrite records_reset_index.
  set (cls := map class (site_rows D s)).
  assert (Hnd : NoDup (map fst (value_counts cls)))
    by (rewrite value_counts_values; apply NoDup_unique).
  assert (Hval : forall v, v ∈ map fst (value_counts cls) -> v ∈ [0%Z; 1%Z]).
  { intros v Hv. rewrite value_counts_values, elem_of_unique in Hv.
    apply elem_of_map in Hv as (r & -> & Hr).
    pose proof (flags_valid_site_rows D s Hflags) as Hrows.
    unfold flags_valid in Hrows.
    pose proof (proj1 (Forall_forall _ _) Hrows r Hr) as [-> | ->]; [left|right; left]. }
  split.
  - rewrite map_map. cbn [fst].
    rewrite <- (map_map fst (dict_get outcome_dict)).
    apply NoDup_map_inj_on; [|exact Hnd].
    intros x y Hx Hy.
    apply Hval in Hx. apply Hval in Hy.
    repeat (apply elem_of_cons in Hx as [->|Hx]); try (inversion Hx; fail);
      repeat (apply elem_of_cons in Hy as [->|Hy]); try (inversion Hy; fail);
      cbn; congruence.
  - unfold reset_index. rewrite length_zip_with, length_seq, Nat.min_id, length_map.
    rewrite <- (length_map fst).
    apply (submseteq_length _ [0%Z; 1%Z]), NoDup_submseteq; assumption.
Qed.

Lemma summarize_site_labels_distinct_witness :
  flags_valid example_D /\ "A" <> "ALL" /\
  exists outcomes,
    summarize example_D "A" = Some (ByOutcome outcomes) /\
    NoDup (map fst (records outcomes)) /\
    length outcomes <= 2.
Proof.
  assert (H : "A" <> "ALL") by discriminate.
  split; [exact example_D_flags_valid|]. split; [exact H|].
  exact (summarize_site_labels_distinct example_D "A" example_D_flags_valid H).
Defined.

(** ** The per-site table, further *)

Lemma sum_list_pick_key {K} `{EqDecision K} (x : K) (ks : list K) :
  NoDup ks -> x ∈ ks ->
  sum_list (map (fun k => if decide (x = k) then 1 else 0) ks) = 1.
Proof.
  induction 1 as [|k ks Hk Hnd IH]; intros Hx; [inversion Hx|]. cbn [map sum_list_with].
  destruct (decide (x = k)) as [->|Hne].
  - assert (H0 : sum_list (map (fun k0 => if decide (k = k0) then 1 else 0) ks) = 0).
    { clear IH Hnd Hx. induction ks as [|k' ks IH]; [reflexivity|].
      rewrite not_elem_of_cons in Hk. destruct Hk as [Hne Hk]. cbn [map sum_list_with].
      destruct (decide (k = k')); [contradiction|]. rewrite IH by exact Hk. reflexivity. }
    unfold id at 1. rewrite H0. lia.
  - unfold id at 1. rewrite IH; [lia|].
    apply elem_of_cons in Hx as [?|?]; [contradiction|assumption].
Qed.

Lemma sum_length_by_site (ks : list string) (D : list LaunchRecord) :
  NoDup ks -> (forall r, r ∈ D -> Launch_Site r ∈ ks) ->
  sum_list (map (fun k => length (site_rows D k)) ks) = length D.
Proof.
  intros Hnd. unfold site_rows.
  induction D as [|r D IH]; intros Hcov.
  - apply sum_list_zero.
  - cbn [length]. rewrite <- IH by (intros r' Hr'; apply Hcov; right; exact Hr').
    change (S ?n) with (1 + n).
    rewrite <- (sum_list_pick_key (Launch_Site r) ks Hnd) at 1 by (apply Hcov; left).
    rewrite <- sum_list_add. f_equal. apply map_ext. intros k.
    rewrite filter_cons. destruct (decide (Launch_Site r = k)); reflexivity.
Qed.

(** X11. The [record_total]s of the per-site table add up to the number of
    rows of the dataset: every row is counted, and counted once. *)
Theorem record_totals_add_up (D : list LaunchRecord) :
  exists result_df,
    summarize D "ALL" = Some (ByCategory result_df) /\
    sum_list (map record_total (records result_df)) = length D.
Proof.
  eexists. split; [apply summarize_ALL|].
  rewrite records_reset_index, map_map. cbn [record_total site_entry snd].
  apply sum_length_by_site; [apply NoDup_groupby_keys|].
  intros r Hr. apply elem_of_groupby_keys, elem_of_map. eauto.
Qed.

(** ** The two tables side by side *)

Lemma count_of_class (rows : list LaunchRecord) (v : Z) :
  count_of v (map class rows) = length (filter (fun r => class r = v) rows).
Proof. unfold count_of. rewrite filter_map_comm. apply length_map. Qed.

Lemma value_counts_entry (s : list Z) (v : Z) :
  v ∈ s -> (v, count_of v s) ∈ value_counts s.
Proof.
  intros Hv. rewrite value_counts_perm. apply elem_of_map.
  exists v. split; [reflexivity|]. apply elem_of_unique, Hv.
Qed.

(** X12. The two tables of the pie chart agree on a site: its line in the
    per-site table counts as many rows as its per-outcome table counts in
    all, and, on 0/1 flags, carries as [success_total] the count of the
    ["Success"] entry, or 0 when there is no such entry. *)
Theorem site_tables_agree (D : list LaunchRecord) (s : string) :
  flags_valid D ->
  s ∈ launch_sites D ->
  s <> "ALL" ->
  exists result_df outcomes t,
    summarize D "ALL" = Some (ByCategory result_df) /\
    summarize D s = Some (ByOutcome outcomes) /\
    t ∈ records result_df /\ site_of t = s /\
    record_total t = sum_list (map snd (records outcomes)) /\
    (forall e, e ∈ records outcomes -> fst e = Some "Success" ->
       success_total t = Z.of_nat (snd e)) /\
    ((forall e, e ∈ records outcomes -> fst e <> Some "Success") ->
       success_total t = 0%Z).
Proof.
  intros Hflags Hin Hs.
  pose proof (flags_valid_site_rows D s Hflags) as Hrows.
  eexists. eexists. exists (site_entry D s).
  split; [apply summarize_ALL|]. split; [apply (summarize_site D s Hs)|].
  rewrite !records_reset_index.
  split; [|split; [reflexivity|]].
  { apply elem_of_map. exists s. split; [reflexivity|].
    apply elem_of_groupby_keys. unfold launch_sites in Hin.
    rewrite elem_of_unique in Hin. exact Hin. }
  cbn [record_total success_total site_entry fst snd].
  rewrite (sum_flags_count _ Hrows).
  split; [|split].
  - rewrite map_map. cbn [snd].
    change (fun x : Z * nat => snd x) with (@snd Z nat).
    rewrite sum_value_counts. symmetry. apply length_map.
  - intros e He Hlabel. apply elem_of_map in He as ([v n] & -> & Hvn).
    cbn [fst snd] in *. apply elem_of_value_counts in Hvn as [Hv Hn].
    cbn [fst snd] in *. subst n. rewrite count_of_class.
    apply elem_of_map in Hv as (r & -> & Hr).
    unfold flags_valid in Hrows.
    pose proof (proj1 (Forall_forall _ _) Hrows r Hr) as [E|E];
      rewrite E in Hlabel |- *; [discriminate Hlabel|reflexivity].
  - intros Hnone. rewrite filter_none; [reflexivity|].
    intros r Hr Hclass. apply (Hnone (Some "Success", count_of 1%Z (map class (site_rows D s)))).
    + apply elem_of_map. exists (1%Z, count_of 1%Z (map class (site_rows D s))).
      split; [reflexivity|]. apply value_counts_entry.
      apply elem_of_map. exists r. auto.
    + reflexivity.
Qed.

Lemma site_tables_agree_witness :
  flags_valid example_D /\ "A" ∈ launch_sites example_D /\ "A" <> "ALL" /\
  exists result_df outcomes t,
    summarize example_D "ALL" = Some (ByCategory result_df) /\
    summarize example_D "A" = Some (ByOutcome outcomes) /\
    t ∈ records result_df /\ site_of t = "A" /\
    record_total t = sum_list (map snd (records outcomes)) /\
    (forall e, e ∈ records outcomes -> fst e = Some "Success" ->
       success_total t = Z.of_nat (snd e)) /\
    ((forall e, e ∈ records outcomes -> fst e <> Some "Success") ->
       success_total t = 0%Z).
Proof.
  assert (H1 : "A" ∈ launch_sites example_D) by (left).
  assert (H2 : "A" <> "ALL") by discriminate.
  split; [exact example_D_flags_valid|]. split; [exact H1|]. split; [exact H2|].
  exact (site_tables_agree example_D "A" example_D_flags_valid H1 H2).
Defined.

(** ** Row order of the dataset *)

Lemma sum_Z_Permutation (l1 l2 : list Z) : l1 ≡ₚ l2 -> sum_Z l1 = sum_Z l2.
Proof. induction 1; simpl; lia. Qed.

Lemma groupby_keys_Permutation (k1 k2 : list string) :
  k1 ≡ₚ k2 -> groupby_keys k1 = groupby_keys k2.
Proof.
  intros Hp.
  apply (StronglySorted_unique_strong str_lt);
    [|apply groupby_keys_sorted|apply groupby_keys_sorted|].
  - intros x y _ _ Hxy Hyx. exfalso.
    apply (StrictOrder_Irreflexive (R := String_as_OT.lt) x).
    exact (str_lt_trans _ _ _ Hxy Hyx).
  - apply NoDup_Permutation; [apply NoDup_groupby_keys|apply NoDup_groupby_keys|].
    intros x. rewrite !elem_of_groupby_keys, Hp. reflexivity.
Qed.

(** X13. The per-site table does not depend on the order of the rows in
    the dataset: two datasets with the same rows give the same table. *)
Theorem summarize_ALL_ignores_row_order (D D' : list LaunchRecord) :
  D ≡ₚ D' -> summarize D "ALL" = summarize D' "ALL".
Proof.
  intros Hp. rewrite !summarize_ALL. do 3 f_equal.
  rewrite (groupby_keys_Permutation _ _ (Permutation_map Launch_Site Hp)).
  apply map_ext. intros k. unfold site_entry.
  assert (Hrows : site_rows D k ≡ₚ site_rows D' k)
    by (unfold site_rows; rewrite Hp; reflexivity).
  rewrite (sum_Z_Permutation _ _ (Permutation_map class Hrows)).
  rewrite (Permutation_length Hrows). reflexivity.
Qed.

Lemma summarize_ALL_ignores_row_order_witness :
  example_D ≡ₚ rev example_D /\
  summarize example_D "ALL" = summarize (rev example_D) "ALL".
Proof.
  assert (H : example_D ≡ₚ rev example_D) by apply Permutation_rev.
  split; [exact H|].
  exact (summarize_ALL_ignores_row_order example_D (rev example_D) H).
Defined.

(** ** The dropdown *)

Lemma length_reset_index {A} (l : list A) : length (reset_index l) = length l.
Proof. unfold reset_index. rewrite length_zip_with, length_seq. apply Nat.min_id. Qed.

(** X14. The dropdown lists no entry twice; it offers every launch site of
    the dataset under its own name; and every entry after ['All Launch
    Sites'] is such a site. *)
Theorem dropdown_offers_each_site_once (D : list LaunchRecord) :
  NoDup (dropdown_options D) /\
  (forall r, r ∈ D -> mkOption (Launch_Site r) (Launch_Site r) ∈ dropdown_options D) /\
  (forall o, o ∈ dropdown_options D ->
     o = mkOption "All Launch Sites" "ALL" \/
     (label o = value o /\ exists r, r ∈ D /\ Launch_Site r = value o)).
Proof.
  unfold dropdown_options. split; [|split].
  - constructor.
    + intros Hin. apply elem_of_map in Hin as (site & [= E1 E2] & _). congruence.
    + apply NoDup_map_inj_on; [|apply NoDup_unique].
      intros x y _ _ [= E _]. exact E.
  - intros r Hr. right. apply elem_of_map. exists (Launch_Site r).
    split; [reflexivity|]. apply elem_of_unique, elem_of_map. eauto.
  - intros o Ho. apply elem_of_cons in Ho as [->|Ho]; [left; reflexivity|].
    right. apply elem_of_map in Ho as (site & -> & Hsite). split; [reflexivity|].
    unfold launch_sites in Hsite. rewrite elem_of_unique in Hsite.
    apply elem_of_map in Hsite as (r & -> & Hr). eauto.
Qed.

(** X15. Whatever entry of the dropdown is chosen, the pie chart gets a
    table with at least one line, as soon as the dataset has a row. *)
Theorem every_dropdown_choice_has_a_table (D : list LaunchRecord) :
  D <> [] ->
  forall o, o ∈ dropdown_options D ->
    exists res, summarize D (value o) = Some res /\ 1 <= table_length res.
Proof.
  intros Hne o Ho.
  destruct (String.eqb_spec (value o) "ALL") as [E|E].
  - rewrite E. eexists. split; [apply summarize_ALL|].
    cbn [table_length]. rewrite length_reset_index, length_map.
    destruct D as [|r D]; [contradiction|].
    assert (Hk : Launch_Site r ∈ groupby_keys (map Launch_Site (r :: D)))
      by (apply elem_of_groupby_keys; left).
    destruct (groupby_keys (map Launch_Site (r :: D))); [inversion Hk|simpl; lia].
  - eexists. split; [apply (summarize_site D _ E)|].
    cbn [table_length]. rewrite length_reset_index, length_map.
    assert (Hin : value o ∈ launch_sites D).
    { unfold dropdown_options in Ho. apply elem_of_cons in Ho as [->|Ho]; [contradiction E; reflexivity|].
      apply elem_of_map in Ho as (site & -> & Hsite). exact Hsite. }
    pose proof (site_rows_known D _ Hin) as Hrows.
    destruct (value_counts (map class (site_rows D (value o)))) eqn:Evc; [|simpl; lia].
    apply value_counts_nil, map_eq_nil in Evc. contradiction.
Qed.

Lemma every_dropdown_choice_has_a_table_witness :
  example_D <> [] /\
  forall o, o ∈ dropdown_options example_D ->
    exists res, summarize example_D (value o) = Some res /\ 1 <= table_length res.
Proof.
  assert (H : example_D <> []) by discriminate.
  split; [exact H|].
  exact (every_dropdown_choice_has_a_table example_D H).
Defined.
